(** * Configuration Service: a shallow embedding of the handlers, the
    relational store and the client, with the properties of the
    specification stated over them.

    Modelling conventions.
    - JS strings are [string]; one [ascii] stands for one character.
    - JS numbers that hold integers are [Z]; [NaN] is [None] where the code
      can produce it.  Precision loss above 2^53 is outside the model.
    - JS objects used as dictionaries are [gmap string _] over their own
      keys; members inherited from [Object.prototype] are outside the model.
    - Timestamps are [Z]; the clock reading of a request is an argument.
    - The relational store answers every statement: connection failures
      and time-outs are outside the model.
    - A handler is a function from the store and the request to the new
      store and the response. *)

From Stdlib Require Import ZArith Lia List Bool Ascii String.
From stdpp Require Import base option list gmap strings pretty sorting.

#[local] Set Warnings "-register-all".

Local Open Scope string_scope.
Local Open Scope Z_scope.

(** ** JSON values *)

Module Json.

Inductive json : Type :=
  | JNull
  | JBool (b : bool)
  | JNum (z : Z)
  | JStr (s : string)
  | JArr (l : list json)
  | JObj (fields : gmap string json).

(** A JS value as a handler sees it: [undefined] or a JSON value. *)
Inductive jsval : Type :=
  | Undefined
  | Val (j : json).

(** An optional string, as a field of a request body or of a query. *)
Definition field (o : option string) : jsval :=
  match o with
  | None => Undefined
  | Some s => Val (JStr s)
  end.

End Json.
Export Json.

(** ** The mock API handlers (ui/tests/mocks/api-handlers.ts) *)

Module MockApi.

(** [ApplicationResponse] and [ConfigurationResponse] of [@/types/api]. *)
Record ApplicationResponse := mkApp {
  id : string;
  name : string;
  description : option string
}.

Record ConfigurationResponse := mkConfig {
  application_id : string;
  config : gmap string json
}.

(** The two module-level stores, [mockApplications] (an array) and
    [mockConfigurations] (an object keyed by application id). *)
Record store := mkStore {
  mockApplications : list ApplicationResponse;
  mockConfigurations : gmap string ConfigurationResponse
}.

Inductive body : Type :=
  | BApplication (a : ApplicationResponse)
  | BApplications (l : list ApplicationResponse)
  | BConfiguration (c : ConfigurationResponse)
  | BError (detail : string)
  | BEmpty.

Record response := mkResponse { status : Z; payload : body }.

Definition same_id (i : string) (a : ApplicationResponse) : bool :=
  bool_decide (id a = i).

(** [Array.prototype.findIndex]: [None] stands for [-1]. *)
Fixpoint findIndex (p : ApplicationResponse -> bool)
    (l : list ApplicationResponse) : option nat :=
  match l with
  | [] => None
  | a :: l' => if p a then Some O else S <$> findIndex p l'
  end.

(** [splice(index, 1)]. *)
Definition splice1 (index : nat) (l : list ApplicationResponse)
    : list ApplicationResponse :=
  take index l ++ drop (S index) l.

(** GET /api/v1/applications *)
Definition get_applications (s : store) : store * response :=
  (s, mkResponse 200 (BApplications (mockApplications s))).

(** GET /api/v1/applications/:id *)
Definition get_application (s : store) (i : string) : store * response :=
  match List.find (same_id i) (mockApplications s) with
  | None => (s, mkResponse 404 (BError "Application not found"))
  | Some app => (s, mkResponse 200 (BApplication app))
  end.

(** POST /api/v1/applications *)
Definition post_application (s : store) (data_name : string)
    (data_description : option string) : store * response :=
  let newApp := mkApp "01ARZ3NDEKTSV4RRFFQ69G5FC0" data_name data_description in
  (mkStore (mockApplications s ++ [newApp]) (mockConfigurations s),
   mkResponse 201 (BApplication newApp)).

(** DELETE /api/v1/applications/:id *)
Definition delete_application (s : store) (i : string) : store * response :=
  match findIndex (same_id i) (mockApplications s) with
  | None => (s, mkResponse 404 (BError "Application not found"))
  | Some index =>
      (mkStore (splice1 index (mockApplications s)) (mockConfigurations s),
       mkResponse 204 BEmpty)
  end.

(** GET /api/v1/applications/:id/config *)
Definition get_config (s : store) (i : string) : store * response :=
  match mockConfigurations s !! i with
  | None => (s, mkResponse 404 (BError "Configuration not found"))
  | Some c => (s, mkResponse 200 (BConfiguration c))
  end.

(** PUT /api/v1/applications/:id/config *)
Definition put_config (s : store) (i : string) (data_config : gmap string json)
    : store * response :=
  let c := mkConfig i data_config in
  (mkStore (mockApplications s) (<[i := c]> (mockConfigurations s)),
   mkResponse 200 (BConfiguration c)).

(** The initial contents of the two stores. *)
Definition app1 : ApplicationResponse :=
  mkApp "01ARZ3NDEKTSV4RRFFQ69G5FAV" "Test App 1" (Some "First test application").
Definition app2 : ApplicationResponse :=
  mkApp "01ARZ3NDEKTSV4RRFFQ69G5FB0" "Test App 2" (Some "Second test application").

Definition initial : store :=
  mkStore [app1; app2]
    (<["01ARZ3NDEKTSV4RRFFQ69G5FAV" :=
         mkConfig "01ARZ3NDEKTSV4RRFFQ69G5FAV"
           (<["theme" := JStr "dark"]> (<["timeout" := JNum 30]> ∅))]>
     (<["01ARZ3NDEKTSV4RRFFQ69G5FB0" :=
         mkConfig "01ARZ3NDEKTSV4RRFFQ69G5FB0"
           (<["theme" := JStr "light"]> (<["timeout" := JNum 60]> ∅))]> ∅)).

(** An application id is known when some element of [mockApplications]
    carries it. *)
Definition known (s : store) (i : string) : Prop :=
  exists a, a ∈ mockApplications s /\ id a = i.

(** Referential integrity as the specification words it: every stored
    configuration belongs to a known application. *)
Definition referential (s : store) : Prop :=
  forall k c, mockConfigurations s !! k = Some c -> known s (application_id c).

End MockApi.

(** ** Strings and numbers as the JavaScript code reads them *)

Module Js.

Definition is_digit (c : ascii) : bool :=
  let n := nat_of_ascii c in (48 <=? n)%nat && (n <=? 57)%nat.

(** Value of a digit in the given radix (10 or 16). *)
Definition digit_val (radix : Z) (c : ascii) : option Z :=
  let n := Z.of_nat (nat_of_ascii c) in
  if (48 <=? n) && (n <=? 57) then Some (n - 48)
  else if (radix =? 16) && (97 <=? n) && (n <=? 102) then Some (n - 87)
  else if (radix =? 16) && (65 <=? n) && (n <=? 70) then Some (n - 55)
  else None.

(** The longest prefix of digits, read in [radix]; [None] when the prefix is
    empty. *)
Fixpoint digits_prefix (radix : Z) (s : string) (acc : option Z) : option Z :=
  match s with
  | EmptyString => acc
  | String c s' =>
      match digit_val radix c with
      | Some v => digits_prefix radix s' (Some (radix * default 0 acc + v))
      | None => acc
      end
  end.

(** White space skipped by [parseInt] and removed by [trim], within the
    one-byte characters: TAB, LF, VT, FF, CR, space and NBSP. *)
Definition is_ws (c : ascii) : bool :=
  let n := nat_of_ascii c in
  ((9 <=? n)%nat && (n <=? 13)%nat) || (n =? 32)%nat || (n =? 160)%nat.

Fixpoint skip_ws (s : string) : string :=
  match s with
  | String c s' => if is_ws c then skip_ws s' else s
  | EmptyString => s
  end.

(** [parseInt(s)] without a radix argument; [None] is [NaN]. *)
Definition parseInt (s : string) : option Z :=
  let s0 := skip_ws s in
  let '(sign, s1) :=
    match s0 with
    | String "-"%char r => (-1, r)
    | String "+"%char r => (1, r)
    | _ => (1, s0)
    end in
  let '(radix, s2) :=
    match s1 with
    | String "0"%char (String "x"%char r) => (16, r)
    | String "0"%char (String "X"%char r) => (16, r)
    | _ => (10, s1)
    end in
  Z.mul sign <$> digits_prefix radix s2 None.

(** [a || b] on an optional string: [undefined] and the empty string are
    falsy. *)
Definition or_default (a : option string) (b : string) : string :=
  match a with
  | Some (String c r) => String c r
  | _ => b
  end.

(** Truthiness of an optional string. *)
Definition truthy (a : option string) : bool :=
  match a with
  | Some (String _ _) => true
  | _ => false
  end.

(** [s.trim()] is empty: every character of [s] is white space. *)
Fixpoint blank (s : string) : bool :=
  match s with
  | EmptyString => true
  | String c r => is_ws c && blank r
  end.

(** [s.includes(sub)]. *)
Fixpoint includes (sub s : string) : bool :=
  String.prefix sub s ||
  match s with
  | EmptyString => false
  | String _ r => includes sub r
  end.

(** [Math.ceil(total / limit)]; [None] when the quotient is not finite
    ([limit] is 0), which JSON renders as [null]. *)
Definition ceil_div (total limit : Z) : option Z :=
  if limit =? 0 then None else Some (- ((- total) / limit)).

End Js.

(** ** express-validator chains (routes/applications.ts,
    routes/configurations.ts) *)

Module Validator.

Record ValidationError := mkError { path : string; msg : string }.

Definition isString (v : jsval) : bool :=
  match v with
  | Val (JStr _) => true
  | _ => false
  end.

(** The string a standard validator is run on. *)
Fixpoint toString (j : json) : string :=
  match j with
  | JNull => ""
  | JBool true => "true"
  | JBool false => "false"
  | JNum z => pretty z
  | JStr s => s
  | JArr l => String.concat "," (List.map toString l)
  | JObj _ => "[object Object]"
  end.

Definition toStringVal (v : jsval) : string :=
  match v with
  | Undefined => ""
  | Val j => toString j
  end.

Definition isLength (min max : nat) (s : string) : bool :=
  (min <=? String.length s)%nat && (String.length s <=? max)%nat.

(** The values a standard validator visits: the elements of an array, the
    value itself otherwise. *)
Definition each (v : jsval) : list jsval :=
  match v with
  | Val (JArr l) => List.map Val l
  | _ => [v]
  end.

(** [/^[-+]?[0-9]+$/] together with the number the literal denotes. *)
Definition int_literal (s : string) : option Z :=
  let '(sign, r) :=
    match s with
    | String "-"%char r => (-1, r)
    | String "+"%char r => (1, r)
    | _ => (1, s)
    end in
  match r with
  | EmptyString => None
  | _ =>
      if forallb Js.is_digit (list_ascii_of_string r)
      then Z.mul sign <$> Js.digits_prefix 10 r None
      else None
  end.

(** [isInt({ min, max })] on a string. *)
Definition isInt (min : Z) (max : option Z) (s : string) : bool :=
  match int_literal s with
  | Some n => (min <=? n) && match max with Some m => n <=? m | None => true end
  | None => false
  end.

Definition invalid_value : string := "Invalid value".

(** [body(f).isString().isLength({ min, max }).withMessage(m)]: the message
    belongs to the last validator of the chain. *)
Definition string_length_chain (f : string) (min max : nat) (m : string)
    (v : jsval) : list ValidationError :=
  (if isString v then [] else [mkError f invalid_value]) ++
  List.flat_map
    (fun x => if isLength min max (toStringVal x) then [] else [mkError f m])
    (each v).

(** [body(f).optional().isString().withMessage(m)] *)
Definition optional_string_chain (f m : string) (v : jsval)
    : list ValidationError :=
  match v with
  | Undefined => []
  | _ => if isString v then [] else [mkError f m]
  end.

(** [body(f).optional().isString().isLength({ min, max }).withMessage(m)] *)
Definition optional_string_length_chain (f : string) (min max : nat)
    (m : string) (v : jsval) : list ValidationError :=
  match v with
  | Undefined => []
  | _ => string_length_chain f min max m v
  end.

(** [param(f).isInt({ min }).withMessage(m)] on a path parameter. *)
Definition int_chain (f : string) (min : Z) (max : option Z) (m : string)
    (s : string) : list ValidationError :=
  if isInt min max s then [] else [mkError f m].

(** [query(f).optional().isInt({ min, max }).withMessage(m)] *)
Definition optional_int_chain (f : string) (min : Z) (max : option Z)
    (m : string) (q : option string) : list ValidationError :=
  match q with
  | None => []
  | Some s => int_chain f min max m s
  end.

(** [body(f).isInt({ min }).withMessage(m)] on a field of the body: a
    standard validator, run on the string form of the value, or of each
    element when the value is an array. *)
Definition body_int_chain (f : string) (min : Z) (max : option Z) (m : string)
    (v : jsval) : list ValidationError :=
  List.flat_map
    (fun x => if isInt min max (toStringVal x) then [] else [mkError f m])
    (each v).

End Validator.

(** ** The rows of the two tables (models/Application.ts,
    models/Configuration.ts) *)

Module Application.
Record t := mk {
  id : positive;
  name : string;
  description : option string;
  created_at : Z;
  updated_at : Z
}.
End Application.

Module Configuration.
Record t := mk {
  id : positive;
  application_id : positive;
  key : string;
  value : option string;
  environment : string;
  created_at : Z;
  updated_at : Z
}.
End Configuration.

(** ** The relational store (migrations/001_initial_schema.sql) and the
    statements the controllers send to it.

    Integers are unbounded: the 32-bit range of the SERIAL and INTEGER
    columns and the 64-bit range of LIMIT and OFFSET are outside the
    model. *)

Module Pg.

Record db := mkDb {
  applications : list Application.t;
  configurations : list Configuration.t;
  applications_id_seq : positive
}.

(** SQLSTATE codes, as found in [error.code]. *)
Definition unique_violation : string := "23505".
Definition not_null_violation : string := "23502".
Definition string_data_right_truncation : string := "22001".
Definition invalid_text_representation : string := "22P02".
Definition invalid_row_count_in_limit_clause : string := "2201W".
Definition invalid_row_count_in_result_offset_clause : string := "2201X".

(** The value a statement parameter carries; [None] is NULL.  Strings are
    sent unchanged, numbers and booleans in their text form.  Arrays and
    objects are rendered with [toString] here; validation rejects them
    before any statement is sent ([create_validated_fields] below). *)
Definition param (v : jsval) : option string :=
  match v with
  | Undefined => None
  | Val JNull => None
  | Val j => Some (Validator.toString j)
  end.

(** An integer read from a text parameter: the signed decimal literals,
    which are the only texts validation lets through. *)
Definition int4 (s : string) : option Z := Validator.int_literal s.

Definition has_id (i : Z) (a : Application.t) : bool :=
  bool_decide (Z.pos (Application.id a) = i).

Definition has_name (n : string) (a : Application.t) : bool :=
  bool_decide (Application.name a = n).

(** [COALESCE(p, old)] *)
Definition coalesce {A} (p : option A) (old : A) : A :=
  match p with
  | Some x => x
  | None => old
  end.

(** [INSERT INTO applications (name, description) VALUES ($1, $2)
    RETURNING *].  The id is drawn from the sequence before the constraints
    are checked, so a rejected row still advances the sequence.
    [name VARCHAR(255) NOT NULL UNIQUE]. *)
Definition insert_application (d : db) (name description : option string)
    (now : Z) : db * (string + Application.t) :=
  let i := applications_id_seq d in
  let d1 := mkDb (applications d) (configurations d) (Pos.succ i) in
  match name with
  | None => (d1, inl not_null_violation)
  | Some n =>
      if (255 <? String.length n)%nat then (d1, inl string_data_right_truncation)
      else if existsb (has_name n) (applications d) then (d1, inl unique_violation)
      else
        let row := Application.mk i n description now now in
        (mkDb (applications d ++ [row]) (configurations d) (Pos.succ i), inr row)
  end.

(** The row an UPDATE writes over [a]. *)
Definition updated_row (a : Application.t) (name description : option string)
    (now : Z) : Application.t :=
  Application.mk (Application.id a)
    (coalesce name (Application.name a))
    (match description with
     | Some s => Some s
     | None => Application.description a
     end)
    (Application.created_at a)
    now.

(** Another row already carries the name of [a']. *)
Definition name_taken (a' : Application.t) (l : list Application.t) : bool :=
  existsb
    (fun b => negb (bool_decide (Application.id b = Application.id a'))
              && has_name (Application.name a') b)
    l.

(** The table after the rows of id [i] have been written. *)
Definition write_rows (i : Z) (name description : option string) (now : Z)
    (l : list Application.t) : list Application.t :=
  List.map (fun b => if has_id i b then updated_row b name description now else b) l.

(** [UPDATE applications SET name = COALESCE($1, name),
    description = COALESCE($2, description), updated_at = CURRENT_TIMESTAMP
    WHERE id = $3 RETURNING *]: the rows written, none when no row has the
    id.  The statement fails as a whole when a written row breaks
    [VARCHAR(255)] or [UNIQUE]. *)
Definition update_application (d : db) (name description : option string)
    (i : Z) (now : Z) : string + (db * list Application.t) :=
  let written :=
    List.map (fun a => updated_row a name description now)
      (List.filter (has_id i) (applications d)) in
  if existsb (fun a' => (255 <? String.length (Application.name a'))%nat) written
  then inl string_data_right_truncation
  else if existsb (fun a' => name_taken a' (applications d)) written
  then inl unique_violation
  else
    inr (mkDb (write_rows i name description now (applications d))
           (configurations d) (applications_id_seq d),
         written).

(** [SELECT * FROM applications WHERE id = $1] *)
Definition select_application (d : db) (i : Z) : list Application.t :=
  List.filter (has_id i) (applications d).

(** [ORDER BY created_at DESC] *)
Definition newer (a b : Application.t) : Prop :=
  Application.created_at b <= Application.created_at a.

#[global] Instance newer_dec a b : Decision (newer a b).
Proof. unfold newer. apply _. Defined.

Definition cnewer (a b : Configuration.t * string) : Prop :=
  Configuration.created_at (fst b) <= Configuration.created_at (fst a).

#[global] Instance cnewer_dec a b : Decision (cnewer a b).
Proof. unfold cnewer. apply _. Defined.

(** [LIMIT $1 OFFSET $2] over the rows [l]; a parameter that is not a
    number ([NaN]) or is negative is refused by the store. *)
Definition limit_offset {A} (limit offset : option Z) (l : list A)
    : string + list A :=
  match limit, offset with
  | Some lim, Some off =>
      if lim <? 0 then inl invalid_row_count_in_limit_clause
      else if off <? 0 then inl invalid_row_count_in_result_offset_clause
      else inr (take (Z.to_nat lim) (drop (Z.to_nat off) l))
  | _, _ => inl invalid_text_representation
  end.

(** [SELECT * FROM applications ORDER BY created_at DESC LIMIT $1 OFFSET $2] *)
Definition select_applications_page (d : db) (limit offset : option Z)
    : string + list Application.t :=
  limit_offset limit offset (merge_sort newer (applications d)).

(** [SELECT COUNT( * ) as total FROM applications] *)
Definition count_applications (d : db) : Z :=
  Z.of_nat (List.length (applications d)).

(** The rows of [configurations c JOIN applications a ON c.application_id =
    a.id WHERE c.application_id = $1], with [AND c.environment = $2] when an
    environment is given; each row carries [a.name as application_name]. *)
Definition for_application (i : Z) (environment : option string)
    (c : Configuration.t) : bool :=
  bool_decide (Z.pos (Configuration.application_id c) = i) &&
  match environment with
  | Some e => bool_decide (Configuration.environment c = e)
  | None => true
  end.

Definition joined (d : db) (i : Z) (environment : option string)
    : list (Configuration.t * string) :=
  List.flat_map
    (fun c =>
       List.map (fun a => (c, Application.name a))
         (List.filter
            (fun a => bool_decide (Application.id a = Configuration.application_id c))
            (applications d)))
    (List.filter (for_application i environment) (configurations d)).

Definition select_configurations_page (d : db) (i : Z)
    (environment : option string) (limit offset : option Z)
    : string + list (Configuration.t * string) :=
  limit_offset limit offset (merge_sort cnewer (joined d i environment)).

(** [SELECT COUNT( * ) as total FROM configurations WHERE application_id = $1]
    with the same optional environment condition. *)
Definition count_configurations (d : db) (i : Z) (environment : option string)
    : Z :=
  Z.of_nat (List.length (List.filter (for_application i environment) (configurations d))).

(** The constraints of the schema (PRIMARY KEY, UNIQUE, the sequence ahead
    of every id, REFERENCES applications(id)) and the name rule that the
    routes enforce on every name they store. *)
Definition wf (d : db) : Prop :=
  NoDup (List.map Application.id (applications d)) /\
  NoDup (List.map Application.name (applications d)) /\
  Forall (fun a => (Application.id a < applications_id_seq d)%positive)
    (applications d) /\
  Forall (fun a => Validator.isLength 1 255 (Application.name a) = true)
    (applications d) /\
  Forall (fun c => Exists (fun a => Application.id a = Configuration.application_id c)
                     (applications d))
    (configurations d).

#[global] Instance wf_dec d : Decision (wf d).
Proof. unfold wf. apply _. Defined.

Definition empty : db := mkDb [] [] 1%positive.

End Pg.

(** ** The statements on the [configurations] table
    ([key VARCHAR(255) NOT NULL], [environment VARCHAR(50) NOT NULL],
    [application_id INTEGER NOT NULL REFERENCES applications(id)],
    [UNIQUE(application_id, key, environment)]) *)

Module PgConfigurations.

(** The tables together with the sequence of [configurations.id]. *)
Record store := mkStore {
  tables : Pg.db;
  configurations_id_seq : positive
}.

Definition foreign_key_violation : string := "23503".

(** A parameter bound to an integer column.  Numbers, booleans and strings
    are sent in their text form; an array is sent as an array literal and
    an object as its JSON text, both of which begin with a brace and are
    no integer: [Composite] stands for them. *)
Inductive parameter : Type :=
  | Null
  | Text (s : string)
  | Composite.

Definition prepare (v : jsval) : parameter :=
  match v with
  | Undefined => Null
  | Val JNull => Null
  | Val (JArr _) => Composite
  | Val (JObj _) => Composite
  | Val j => Text (Validator.toString j)
  end.

(** The integer a parameter is read as: an error, NULL or a number. *)
Definition int4 (p : parameter) : string + option Z :=
  match p with
  | Null => inr None
  | Text s =>
      match Pg.int4 s with
      | Some i => inr (Some i)
      | None => inl Pg.invalid_text_representation
      end
  | Composite => inl Pg.invalid_text_representation
  end.

(** [SELECT id FROM applications WHERE id = $1] *)
Definition select_application_id (d : Pg.db) (p : parameter)
    : string + list positive :=
  match int4 p with
  | inl code => inl code
  | inr None => inr []
  | inr (Some i) => inr (List.map Application.id (Pg.select_application d i))
  end.

Definition has_id (i : Z) (c : Configuration.t) : bool :=
  bool_decide (Z.pos (Configuration.id c) = i).

(** The columns of the UNIQUE constraint. *)
Definition triple (c : Configuration.t) : positive * string * string :=
  (Configuration.application_id c, Configuration.key c,
   Configuration.environment c).

(** The row carries these values in the columns of the UNIQUE constraint. *)
Definition same_columns (a : Z) (k e : string) (c : Configuration.t) : bool :=
  bool_decide (Z.pos (Configuration.application_id c) = a)
  && bool_decide (Configuration.key c = k)
  && bool_decide (Configuration.environment c = e).

Definition with_configurations (d : Pg.db) (l : list Configuration.t) : Pg.db :=
  Pg.mkDb (Pg.applications d) l (Pg.applications_id_seq d).

(** [INSERT INTO configurations (application_id, key, value, environment)
    VALUES ($1, $2, $3, $4) RETURNING *].  A parameter that is no integer
    is refused before the statement runs; otherwise the id is drawn from
    the sequence and the constraints are checked. *)
Definition insert_configuration (s : store) (application_id : parameter)
    (key value environment : option string) (now : Z)
    : store * (string + Configuration.t) :=
  match int4 application_id with
  | inl code => (s, inl code)
  | inr a =>
      let i := configurations_id_seq s in
      let d := tables s in
      let s1 := mkStore d (Pos.succ i) in
      match a, key, environment with
      | Some a, Some k, Some e =>
          if (255 <? String.length k)%nat || (50 <? String.length e)%nat
          then (s1, inl Pg.string_data_right_truncation)
          else if existsb (same_columns a k e) (Pg.configurations d)
          then (s1, inl Pg.unique_violation)
          else
            match List.find (Pg.has_id a) (Pg.applications d) with
            | None => (s1, inl foreign_key_violation)
            | Some app =>
                let row :=
                  Configuration.mk i (Application.id app) k value e now now in
                (mkStore (with_configurations d (Pg.configurations d ++ [row]))
                   (Pos.succ i),
                 inr row)
            end
      | _, _, _ => (s1, inl Pg.not_null_violation)
      end
  end.

(** The row an UPDATE writes over [c]. *)
Definition updated_row (c : Configuration.t) (key value environment : option string)
    (now : Z) : Configuration.t :=
  Configuration.mk (Configuration.id c) (Configuration.application_id c)
    (Pg.coalesce key (Configuration.key c))
    (match value with
     | Some v => Some v
     | None => Configuration.value c
     end)
    (Pg.coalesce environment (Configuration.environment c))
    (Configuration.created_at c)
    now.

(** Another row already carries the columns of the UNIQUE constraint of
    [c']. *)
Definition triple_taken (c' : Configuration.t) (l : list Configuration.t) : bool :=
  existsb
    (fun c => negb (bool_decide (Configuration.id c = Configuration.id c'))
              && bool_decide (triple c = triple c'))
    l.

Definition write_rows (i : Z) (key value environment : option string) (now : Z)
    (l : list Configuration.t) : list Configuration.t :=
  List.map
    (fun c => if has_id i c then updated_row c key value environment now else c)
    l.

(** [UPDATE configurations SET key = COALESCE($1, key),
    value = COALESCE($2, value), environment = COALESCE($3, environment),
    updated_at = CURRENT_TIMESTAMP WHERE id = $4 RETURNING *] *)
Definition update_configuration (s : store) (key value environment : option string)
    (i : Z) (now : Z) : string + (store * list Configuration.t) :=
  let d := tables s in
  let written :=
    List.map (fun c => updated_row c key value environment now)
      (List.filter (has_id i) (Pg.configurations d)) in
  if existsb
       (fun c' => (255 <? String.length (Configuration.key c'))%nat
                  || (50 <? String.length (Configuration.environment c'))%nat)
       written
  then inl Pg.string_data_right_truncation
  else if existsb (fun c' => triple_taken c' (Pg.configurations d)) written
  then inl Pg.unique_violation
  else
    inr (mkStore
           (with_configurations d
              (write_rows i key value environment now (Pg.configurations d)))
           (configurations_id_seq s),
         written).

(** [SELECT c.*, a.name as application_name FROM configurations c
    JOIN applications a ON c.application_id = a.id WHERE c.id = $1] *)
Definition select_configuration (d : Pg.db) (i : Z)
    : list (Configuration.t * string) :=
  List.flat_map
    (fun c =>
       List.map (fun a => (c, Application.name a))
         (List.filter
            (fun a => bool_decide (Application.id a = Configuration.application_id c))
            (Pg.applications d)))
    (List.filter (has_id i) (Pg.configurations d)).

(** The constraints of both tables, and the rules the routes enforce on
    the keys and environments they store. *)
Definition wf (s : store) : Prop :=
  Pg.wf (tables s) /\
  NoDup (List.map Configuration.id (Pg.configurations (tables s))) /\
  NoDup (List.map triple (Pg.configurations (tables s))) /\
  Forall (fun c => (Configuration.id c < configurations_id_seq s)%positive)
    (Pg.configurations (tables s)) /\
  Forall (fun c => Validator.isLength 1 255 (Configuration.key c) = true /\
                   Validator.isLength 1 50 (Configuration.environment c) = true)
    (Pg.configurations (tables s)).

#[global] Instance wf_dec s : Decision (wf s).
Proof. unfold wf. apply _. Defined.

Definition empty : store := mkStore Pg.empty 1%positive.

End PgConfigurations.

(** ** Responses of the server *)

Module Http.

(** [Date.prototype.toISOString] of a timestamp. *)
Inductive IsoString : Type := toISOString (t : Z).

Record ApplicationResponse := mkApplicationResponse {
  id : positive;
  name : string;
  description : option string;
  created_at : IsoString;
  updated_at : IsoString
}.

Record ConfigurationWithApplication := mkConfigurationWithApplication {
  c_id : positive;
  application_id : positive;
  key : string;
  value : option string;
  environment : string;
  c_created_at : IsoString;
  c_updated_at : IsoString;
  application_name : string
}.

Record Pagination := mkPagination {
  page : Z;
  limit : Z;
  total : Z;
  totalPages : option Z
}.

Inductive body : Type :=
  | BApplication (a : ApplicationResponse)
  | BError (error : string)
  | BValidation (details : list Validator.ValidationError)
  | BApplications (data : list ApplicationResponse) (pagination : Pagination)
  | BConfigurations (data : list ConfigurationWithApplication)
      (pagination : Pagination).

Record response := mkResponse { status : Z; payload : body }.

(** [{ ...application, created_at: ..., updated_at: ... }] *)
Definition application_response (a : Application.t) : ApplicationResponse :=
  mkApplicationResponse (Application.id a) (Application.name a)
    (Application.description a)
    (toISOString (Application.created_at a))
    (toISOString (Application.updated_at a)).

Definition configuration_response (row : Configuration.t * string)
    : ConfigurationWithApplication :=
  let c := fst row in
  mkConfigurationWithApplication (Configuration.id c)
    (Configuration.application_id c) (Configuration.key c)
    (Configuration.value c) (Configuration.environment c)
    (toISOString (Configuration.created_at c))
    (toISOString (Configuration.updated_at c))
    (snd row).

Definition validation_failed (errors : list Validator.ValidationError)
    : response :=
  mkResponse 400 (BValidation errors).

Definition internal_server_error : response :=
  mkResponse 500 (BError "Internal server error").


End Http.

(** ** Responses of the configuration routes that carry one configuration *)

Module ConfigurationHttp.

Record ConfigurationResponse := mkConfigurationResponse {
  id : positive;
  application_id : positive;
  key : string;
  value : option string;
  environment : string;
  created_at : Http.IsoString;
  updated_at : Http.IsoString
}.

Inductive body : Type :=
  | BConfiguration (c : ConfigurationResponse)
  | BConfigurationWithApplication (c : Http.ConfigurationWithApplication)
  | BError (error : string)
  | BValidation (details : list Validator.ValidationError).

Record response := mkResponse { status : Z; payload : body }.

(** [{ ...configuration, created_at: ..., updated_at: ... }] *)
Definition configuration_response (c : Configuration.t) : ConfigurationResponse :=
  mkConfigurationResponse (Configuration.id c) (Configuration.application_id c)
    (Configuration.key c) (Configuration.value c) (Configuration.environment c)
    (Http.toISOString (Configuration.created_at c))
    (Http.toISOString (Configuration.updated_at c)).

Definition validation_failed (errors : list Validator.ValidationError)
    : response :=
  mkResponse 400 (BValidation errors).

Definition internal_server_error : response :=
  mkResponse 500 (BError "Internal server error").

Definition application_not_found : response :=
  mkResponse 404 (BError "Application not found").

Definition configuration_not_found : response :=
  mkResponse 404 (BError "Configuration not found").

Definition configuration_exists : response :=
  mkResponse 409
    (BError "Configuration with this key and environment already exists for this application").

End ConfigurationHttp.

(** ** controllers/ApplicationController.ts

    [errors] is [validationResult(req)]: what the chains of the route have
    recorded on the request. *)

Module ApplicationController.
Import Http.

Definition name_exists : response :=
  mkResponse 409 (BError "Application with this name already exists").

Definition not_found : response :=
  mkResponse 404 (BError "Application not found").

(** The [catch] clause of [create] and [update]. *)
Definition on_error (code : string) : response :=
  if bool_decide (code = "23505") then name_exists else internal_server_error.

Definition create (errors : list Validator.ValidationError)
    (name description : jsval) (d : Pg.db) (now : Z) : Pg.db * response :=
  match errors with
  | _ :: _ => (d, validation_failed errors)
  | [] =>
      match Pg.insert_application d (Pg.param name) (Pg.param description) now with
      | (d', inr application) =>
          (d', mkResponse 201 (BApplication (application_response application)))
      | (d', inl code) => (d', on_error code)
      end
  end.

Definition update (errors : list Validator.ValidationError) (id : string)
    (name description : jsval) (d : Pg.db) (now : Z) : Pg.db * response :=
  match errors with
  | _ :: _ => (d, validation_failed errors)
  | [] =>
      match Pg.int4 id with
      | None => (d, on_error Pg.invalid_text_representation)
      | Some i =>
          match Pg.update_application d (Pg.param name) (Pg.param description) i now with
          | inl code => (d, on_error code)
          | inr (d', []) => (d', not_found)
          | inr (d', application :: _) =>
              (d', mkResponse 200 (BApplication (application_response application)))
          end
      end
  end.

Definition getById (errors : list Validator.ValidationError) (id : string)
    (d : Pg.db) : Pg.db * response :=
  match errors with
  | _ :: _ => (d, validation_failed errors)
  | [] =>
      match Pg.int4 id with
      | None => (d, internal_server_error)
      | Some i =>
          match Pg.select_application d i with
          | [] => (d, not_found)
          | application :: _ =>
              (d, mkResponse 200 (BApplication (application_response application)))
          end
      end
  end.

(** [getAll] reads [req.query.page] and [req.query.limit]; its route runs no
    validation chain. *)
Definition getAll (query_page query_limit : option string) (d : Pg.db)
    : Pg.db * response :=
  let page := Js.parseInt (Js.or_default query_page "1") in
  let limit := Js.parseInt (Js.or_default query_limit "10") in
  let offset :=
    match page, limit with
    | Some p, Some l => Some ((p - 1) * l)
    | _, _ => None
    end in
  match Pg.select_applications_page d limit offset with
  | inl _ => (d, internal_server_error)
  | inr rows =>
      let total := Pg.count_applications d in
      let applications := List.map application_response rows in
      match page, limit with
      | Some p, Some l =>
          (d, mkResponse 200
                (BApplications applications
                   (mkPagination p l total (Js.ceil_div total l))))
      | _, _ => (d, internal_server_error)
      end
  end.

End ApplicationController.

(** ** controllers/ConfigurationController.ts *)

Module ConfigurationController.
Import Http.

Definition getByApplication (errors : list Validator.ValidationError)
    (applicationId : string) (environment query_page query_limit : option string)
    (d : Pg.db) : Pg.db * response :=
  match errors with
  | _ :: _ => (d, validation_failed errors)
  | [] =>
      let page := default "1" query_page in
      let limit := default "10" query_limit in
      match Pg.int4 applicationId with
      | None => (d, internal_server_error)
      | Some i =>
          match Pg.select_application d i with
          | [] => (d, ApplicationController.not_found)
          | _ :: _ =>
              let pageNum := Js.parseInt page in
              let limitNum := Js.parseInt limit in
              let offset :=
                match pageNum, limitNum with
                | Some p, Some l => Some ((p - 1) * l)
                | _, _ => None
                end in
              let env := if Js.truthy environment then environment else None in
              match Pg.select_configurations_page d i env limitNum offset with
              | inl _ => (d, internal_server_error)
              | inr rows =>
                  let total := Pg.count_configurations d i env in
                  let configurations := List.map configuration_response rows in
                  match pageNum, limitNum with
                  | Some p, Some l =>
                      (d, mkResponse 200
                            (BConfigurations configurations
                               (mkPagination p l total (Js.ceil_div total l))))
                  | _, _ => (d, internal_server_error)
                  end
              end
          end
      end
  end.

(** The [catch] clause of [create]. *)
Definition on_create_error (code : string) : ConfigurationHttp.response :=
  if bool_decide (code = "23505") then ConfigurationHttp.configuration_exists
  else if bool_decide (code = "23503") then ConfigurationHttp.application_not_found
  else ConfigurationHttp.internal_server_error.

(** The [catch] clause of [update]. *)
Definition on_update_error (code : string) : ConfigurationHttp.response :=
  if bool_decide (code = "23505") then ConfigurationHttp.configuration_exists
  else ConfigurationHttp.internal_server_error.

Definition create (errors : list Validator.ValidationError)
    (application_id key value environment : jsval)
    (s : PgConfigurations.store) (now : Z)
    : PgConfigurations.store * ConfigurationHttp.response :=
  match errors with
  | _ :: _ => (s, ConfigurationHttp.validation_failed errors)
  | [] =>
      match PgConfigurations.select_application_id (PgConfigurations.tables s)
              (PgConfigurations.prepare application_id) with
      | inl code => (s, on_create_error code)
      | inr [] => (s, ConfigurationHttp.application_not_found)
      | inr (_ :: _) =>
          match PgConfigurations.insert_configuration s
                  (PgConfigurations.prepare application_id)
                  (Pg.param key) (Pg.param value) (Pg.param environment) now with
          | (s', inr configuration) =>
              (s', ConfigurationHttp.mkResponse 201
                     (ConfigurationHttp.BConfiguration
                        (ConfigurationHttp.configuration_response configuration)))
          | (s', inl code) => (s', on_create_error code)
          end
      end
  end.

Definition update (errors : list Validator.ValidationError) (id : string)
    (key value environment : jsval) (s : PgConfigurations.store) (now : Z)
    : PgConfigurations.store * ConfigurationHttp.response :=
  match errors with
  | _ :: _ => (s, ConfigurationHttp.validation_failed errors)
  | [] =>
      match Pg.int4 id with
      | None => (s, on_update_error Pg.invalid_text_representation)
      | Some i =>
          match PgConfigurations.update_configuration s
                  (Pg.param key) (Pg.param value) (Pg.param environment) i now with
          | inl code => (s, on_update_error code)
          | inr (s', []) => (s', ConfigurationHttp.configuration_not_found)
          | inr (s', configuration :: _) =>
              (s', ConfigurationHttp.mkResponse 200
                     (ConfigurationHttp.BConfiguration
                        (ConfigurationHttp.configuration_response configuration)))
          end
      end
  end.

Definition getById (errors : list Validator.ValidationError) (id : string)
    (s : PgConfigurations.store)
    : PgConfigurations.store * ConfigurationHttp.response :=
  match errors with
  | _ :: _ => (s, ConfigurationHttp.validation_failed errors)
  | [] =>
      match Pg.int4 id with
      | None => (s, ConfigurationHttp.internal_server_error)
      | Some i =>
          match PgConfigurations.select_configuration (PgConfigurations.tables s) i with
          | [] => (s, ConfigurationHttp.configuration_not_found)
          | row :: _ =>
              (s, ConfigurationHttp.mkResponse 200
                    (ConfigurationHttp.BConfigurationWithApplication
                       (configuration_response row)))
          end
      end
  end.

End ConfigurationController.

(** ** routes/applications.ts and routes/configurations.ts: each route runs
    its validation chains and then its controller. *)

Module Routes.

Definition name_message : string :=
  "Name must be a string between 1 and 255 characters".
Definition description_message : string := "Description must be a string".
Definition id_message : string := "ID must be a positive integer".

Definition createApplicationValidation (name description : jsval)
    : list Validator.ValidationError :=
  Validator.string_length_chain "name" 1 255 name_message name ++
  Validator.optional_string_chain "description" description_message description.

Definition updateApplicationValidation (id : string) (name description : jsval)
    : list Validator.ValidationError :=
  Validator.int_chain "id" 1 None id_message id ++
  Validator.optional_string_length_chain "name" 1 255 name_message name ++
  Validator.optional_string_chain "description" description_message description.

Definition getApplicationValidation (id : string)
    : list Validator.ValidationError :=
  Validator.int_chain "id" 1 None id_message id.

Definition getByApplicationValidation (applicationId : string)
    (environment page limit : option string) : list Validator.ValidationError :=
  Validator.int_chain "applicationId" 1 None
    "Application ID must be a positive integer" applicationId ++
  Validator.optional_string_chain "environment" "Environment must be a string"
    (field environment) ++
  Validator.optional_int_chain "page" 1 None "Page must be a positive integer" page ++
  Validator.optional_int_chain "limit" 1 (Some 100)
    "Limit must be between 1 and 100" limit.

(** POST /api/applications *)
Definition post_application (name description : jsval) (d : Pg.db) (now : Z)
    : Pg.db * Http.response :=
  ApplicationController.create (createApplicationValidation name description)
    name description d now.

(** PUT /api/applications/:id *)
Definition put_application (id : string) (name description : jsval)
    (d : Pg.db) (now : Z) : Pg.db * Http.response :=
  ApplicationController.update (updateApplicationValidation id name description)
    id name description d now.

(** GET /api/applications/:id *)
Definition get_application (id : string) (d : Pg.db) : Pg.db * Http.response :=
  ApplicationController.getById (getApplicationValidation id) id d.

(** GET /api/applications *)
Definition get_applications (page limit : option string) (d : Pg.db)
    : Pg.db * Http.response :=
  ApplicationController.getAll page limit d.

(** GET /api/configurations/application/:applicationId *)
Definition get_configurations_by_application (applicationId : string)
    (environment page limit : option string) (d : Pg.db)
    : Pg.db * Http.response :=
  ConfigurationController.getByApplication
    (getByApplicationValidation applicationId environment page limit)
    applicationId environment page limit d.

Definition key_message : string :=
  "Key must be a string between 1 and 255 characters".
Definition value_message : string := "Value must be a string".
Definition environment_message : string :=
  "Environment must be a string between 1 and 50 characters".

Definition createConfigurationValidation
    (application_id key value environment : jsval)
    : list Validator.ValidationError :=
  Validator.body_int_chain "application_id" 1 None
    "Application ID must be a positive integer" application_id ++
  Validator.string_length_chain "key" 1 255 key_message key ++
  Validator.optional_string_chain "value" value_message value ++
  Validator.string_length_chain "environment" 1 50 environment_message environment.

Definition updateConfigurationValidation (id : string)
    (key value environment : jsval) : list Validator.ValidationError :=
  Validator.int_chain "id" 1 None id_message id ++
  Validator.optional_string_length_chain "key" 1 255 key_message key ++
  Validator.optional_string_chain "value" value_message value ++
  Validator.optional_string_length_chain "environment" 1 50 environment_message
    environment.

Definition getConfigurationValidation (id : string)
    : list Validator.ValidationError :=
  Validator.int_chain "id" 1 None id_message id.

(** POST /api/configurations *)
Definition post_configuration (application_id key value environment : jsval)
    (s : PgConfigurations.store) (now : Z)
    : PgConfigurations.store * ConfigurationHttp.response :=
  ConfigurationController.create
    (createConfigurationValidation application_id key value environment)
    application_id key value environment s now.

(** PUT /api/configurations/:id *)
Definition put_configuration (id : string) (key value environment : jsval)
    (s : PgConfigurations.store) (now : Z)
    : PgConfigurations.store * ConfigurationHttp.response :=
  ConfigurationController.update
    (updateConfigurationValidation id key value environment)
    id key value environment s now.

(** GET /api/configurations/:id *)
Definition get_configuration (id : string) (s : PgConfigurations.store)
    : PgConfigurations.store * ConfigurationHttp.response :=
  ConfigurationController.getById (getConfigurationValidation id) id s.

End Routes.

(** ** @config-client/src/client.ts

    A call either returns or throws; [fetch] and [response.json()] are the
    two operations that can throw.  Time is not modelled: an abort by the
    timeout timer is a [fetch] that rejects with an [AbortError]. *)

Module ConfigClient.

(** A thrown value: an [Error] with its [name] and [message], or something
    that is not an [Error]. *)
Inductive thrown : Type :=
  | Error (name message : string)
  | NotAnError.

Inductive outcome (A : Type) : Type :=
  | Returned (a : A)
  | Thrown (e : thrown).
Arguments Returned {A} a.
Arguments Thrown {A} e.

Definition bind {A B} (m : outcome A) (k : A -> outcome B) : outcome B :=
  match m with
  | Returned a => k a
  | Thrown e => Thrown e
  end.

Definition try_catch {A} (m : outcome A) (handler : thrown -> outcome A)
    : outcome A :=
  match m with
  | Returned a => Returned a
  | Thrown e => handler e
  end.

#[global] Instance outcome_bind : MBind outcome := fun A B k m => bind m k.
#[global] Instance outcome_ret : MRet outcome := fun A a => Returned a.

(** [ApiResponse<T>] of [types/api.ts]:
    [{ success: true, data }] or [{ success: false, error }]. *)
Inductive ApiResponse : Type :=
  | Success (data : jsval)
  | Failure (error : jsval).

Definition success (r : ApiResponse) : bool :=
  match r with
  | Success _ => true
  | Failure _ => false
  end.

Record RequestInit := mkInit {
  method : option string;
  body : option json;
  headers : option (list (string * string))
}.

Definition no_options : RequestInit := mkInit None None None.

(** What [fetch] resolves with: the status line and what [response.json()]
    settles with. *)
Record Response := mkResponse {
  status : Z;
  json_body : outcome json
}.

Definition ok (r : Response) : bool := (200 <=? status r) && (status r <=? 299).

(** [{ headers: { 'Content-Type': ..., ...options.headers }, signal,
    ...options }]: the spread of [options] comes last. *)
Definition merged (options : RequestInit) : RequestInit :=
  mkInit (method options) (body options)
    (Some (default [("Content-Type", "application/json")] (headers options))).

Definition null_detail : thrown :=
  Error "TypeError" "Cannot read properties of null (reading 'detail')".

(** [error.detail] on a parsed body. *)
Definition detail (error : json) : outcome jsval :=
  match error with
  | JNull => Thrown null_detail
  | JObj fields =>
      Returned match fields !! "detail" with
               | Some v => Val v
               | None => Undefined
               end
  | _ => Returned Undefined
  end.

Definition on_catch (error : thrown) : outcome ApiResponse :=
  match error with
  | Error name message =>
      if bool_decide (name = "AbortError") || Js.includes "aborted" message
      then Returned (Failure (Val (JStr ("Request aborted: " ++ message))))
      else Returned (Failure (Val (JStr message)))
  | NotAnError => Returned (Failure (Val (JStr "Network error")))
  end.

Section Client.

(** The transport: what [fetch(url, init)] settles with. *)
Variable fetch : string -> RequestInit -> outcome Response.
Variable baseUrl : string.

Definition request (endpoint : string) (options : RequestInit)
    : outcome ApiResponse :=
  try_catch
    (response ← fetch (baseUrl ++ endpoint) (merged options);
     if negb (ok response) then
       error ← json_body response;
       d ← detail error;
       mret (Failure d)
     else if status response =? 204 then
       mret (Success Undefined)
     else
       data ← json_body response;
       mret (Success (Val data)))
    on_catch.

Definition getHealth : outcome ApiResponse := request "/health" no_options.

Definition getApplications : outcome ApiResponse :=
  request "/applications" no_options.

Definition getApplication (id : string) : outcome ApiResponse :=
  request ("/applications/" ++ id) no_options.

Definition createApplication (data : json) : outcome ApiResponse :=
  request "/applications" (mkInit (Some "POST") (Some data) None).

Definition deleteApplication (id : string) : outcome ApiResponse :=
  request ("/applications/" ++ id) (mkInit (Some "DELETE") None None).

Definition getConfiguration (applicationId : string) : outcome ApiResponse :=
  request ("/applications/" ++ applicationId ++ "/config") no_options.

Definition updateConfiguration (applicationId : string) (data : json)
    : outcome ApiResponse :=
  request ("/applications/" ++ applicationId ++ "/config")
    (mkInit (Some "PUT") (Some data) None).

Definition getConfigByName (appName : string) : outcome ApiResponse :=
  request ("/config/" ++ appName) no_options.

(** A call of one of the public methods, and its result. *)
Inductive call : Type :=
  | GetHealth
  | GetApplications
  | GetApplication (id : string)
  | CreateApplication (data : json)
  | DeleteApplication (id : string)
  | GetConfiguration (applicationId : string)
  | UpdateConfiguration (applicationId : string) (data : json)
  | GetConfigByName (appName : string).

Definition invoke (c : call) : outcome ApiResponse :=
  match c with
  | GetHealth => getHealth
  | GetApplications => getApplications
  | GetApplication id => getApplication id
  | CreateApplication data => createApplication data
  | DeleteApplication id => deleteApplication id
  | GetConfiguration applicationId => getConfiguration applicationId
  | UpdateConfiguration applicationId data => updateConfiguration applicationId data
  | GetConfigByName appName => getConfigByName appName
  end.

End Client.

End ConfigClient.

(** ** ui/src/components/CreateAppForm.ts *)

Module CreateAppForm.

Record ApplicationCreate := mkForm {
  name : string;
  description : option string
}.

Inductive LoadingState : Type := idle | loading | succeeded | failed.

Record ValidationErrors := mkErrors {
  name_error : option string;
  description_error : option string
}.

Record state := mkState {
  formData : ApplicationCreate;
  loadingState : LoadingState;
  error : jsval;
  validationErrors : ValidationErrors
}.

(** What a call does besides changing the fields. *)
Inductive event : Type :=
  | Render
  | CreateApplication (data : ApplicationCreate)
  | Emit (name : string) (data : jsval).

(** One character of [[a-zA-Z0-9_\-]]. *)
Definition name_char (c : ascii) : bool :=
  let n := nat_of_ascii c in
  ((97 <=? n) && (n <=? 122))%nat || ((65 <=? n) && (n <=? 90))%nat ||
  ((48 <=? n) && (n <=? 57))%nat || (n =? 95)%nat || (n =? 45)%nat.

(** [/^[a-zA-Z0-9_\-]+$/.test(s)] *)
Definition name_regex (s : string) : bool :=
  match s with
  | EmptyString => false
  | _ => forallb name_char (list_ascii_of_string s)
  end.

Definition name_required : string := "Application name is required".
Definition name_charset : string :=
  "Name can only contain letters, numbers, underscores, and hyphens".
Definition description_empty : string :=
  "Description cannot be empty if provided".

(** The errors [validateForm] leaves in [validationErrors]. *)
Definition validation (f : ApplicationCreate) : ValidationErrors :=
  mkErrors
    (if Js.blank (name f) then Some name_required
     else if negb (name_regex (name f)) then Some name_charset
     else None)
    (if Js.truthy (description f) && Js.blank (default "" (description f))
     then Some description_empty
     else None).

(** [Object.keys(this.validationErrors).length === 0] *)
Definition no_errors (e : ValidationErrors) : bool :=
  match name_error e, description_error e with
  | None, None => true
  | _, _ => false
  end.

Definition validateForm (s : state) : state * bool :=
  let e := validation (formData s) in
  (mkState (formData s) (loadingState s) (error s) e, no_errors e).

Definition resetForm (s : state) : state * list event :=
  (mkState (mkForm "" (Some "")) idle (Val JNull) (mkErrors None None), [Render]).

(** [submitForm]; [api] is [api.createApplication]. *)
Definition submitForm (api : ApplicationCreate -> ConfigClient.ApiResponse)
    (s : state) : state * list event :=
  match loadingState s with
  | loading => (s, [])
  | _ =>
      let '(s1, valid) := validateForm s in
      if negb valid then (s1, [Render])
      else
        let s2 := mkState (formData s1) loading (Val JNull) (validationErrors s1) in
        match api (formData s2) with
        | ConfigClient.Success data =>
            let s3 := mkState (formData s2) succeeded (error s2) (validationErrors s2) in
            let '(s4, ev) := resetForm s3 in
            (s4, ([Render; CreateApplication (formData s2); Emit "app-created" data]
                  ++ ev ++ [Render])%list)
        | ConfigClient.Failure err =>
            (mkState (formData s2) failed err (validationErrors s2),
             [Render; CreateApplication (formData s2); Render])
        end
  end.

(** The two fields of the form ([keyof ApplicationCreate]). *)
Inductive field_name : Type := Name | Description.

(** [onInputChange(field, value)]: the field takes the value; an error
    shown for that field is removed and the form is drawn again. *)
Definition onInputChange (f : field_name) (value : string) (s : state)
    : state * list event :=
  let data :=
    match f with
    | Name => mkForm value (description (formData s))
    | Description => mkForm (name (formData s)) (Some value)
    end in
  let shown :=
    match f with
    | Name => name_error (validationErrors s)
    | Description => description_error (validationErrors s)
    end in
  if Js.truthy shown then
    (mkState data (loadingState s) (error s)
       match f with
       | Name => mkErrors None (description_error (validationErrors s))
       | Description => mkErrors (name_error (validationErrors s)) None
       end,
     [Render])
  else (mkState data (loadingState s) (error s) (validationErrors s), []).

End CreateAppForm.

(** ** ui/src/components/BaseComponent.ts *)

Module BaseComponent.

(** [values[i] ?? ''] followed by the conversion that [+] applies to it. *)
Definition value_text (values : list jsval) (i : nat) : string :=
  Validator.toStringVal (default Undefined (values !! i)).

(** [strings.reduce((result, string, i) => result + string + (values[i] ?? ''), '')],
    from index [i] on. *)
Fixpoint reduce_from (i : nat) (strings : list string) (values : list jsval)
    (result : string) : string :=
  match strings with
  | [] => result
  | str :: rest =>
      reduce_from (S i) rest values (result +:+ str +:+ value_text values i)
  end.

(** [html(strings, ...values)] and [css(strings, ...values)]. *)
Definition html (strings : list string) (values : list jsval) : string :=
  reduce_from 0 strings values "".

Definition css (strings : list string) (values : list jsval) : string :=
  html strings values.

End BaseComponent.

(** ** The application: the two routers mounted on one store *)

Module App.

Inductive request : Type :=
  | PostApplication (name description : jsval)
  | PutApplication (id : string) (name description : jsval)
  | GetApplication (id : string)
  | GetApplications (page limit : option string)
  | PostConfiguration (application_id key value environment : jsval)
  | PutConfiguration (id : string) (key value environment : jsval)
  | GetConfiguration (id : string)
  | GetConfigurationsByApplication (applicationId : string)
      (environment page limit : option string).

(** A route of the applications router works on the tables and leaves the
    sequence of the configurations alone. *)
Definition on_tables (s : PgConfigurations.store) (d : Pg.db)
    : PgConfigurations.store :=
  PgConfigurations.mkStore d (PgConfigurations.configurations_id_seq s).

(** The store after a request received at time [now]. *)
Definition handle (r : request) (s : PgConfigurations.store) (now : Z)
    : PgConfigurations.store :=
  let d := PgConfigurations.tables s in
  match r with
  | PostApplication name description =>
      on_tables s (fst (Routes.post_application name description d now))
  | PutApplication id name description =>
      on_tables s (fst (Routes.put_application id name description d now))
  | GetApplication id => on_tables s (fst (Routes.get_application id d))
  | GetApplications page limit =>
      on_tables s (fst (Routes.get_applications page limit d))
  | PostConfiguration application_id key value environment =>
      fst (Routes.post_configuration application_id key value environment s now)
  | PutConfiguration id key value environment =>
      fst (Routes.put_configuration id key value environment s now)
  | GetConfiguration id => fst (Routes.get_configuration id s)
  | GetConfigurationsByApplication applicationId environment page limit =>
      on_tables s
        (fst (Routes.get_configurations_by_application applicationId
                environment page limit d))
  end.

(** The store after a sequence of requests, each with its time. *)
Fixpoint run (trace : list (request * Z)) (s : PgConfigurations.store)
    : PgConfigurations.store :=
  match trace with
  | [] => s
  | (r, now) :: rest => run rest (handle r s now)
  end.

End App.

(** ** A small populated store, after the data of the integration tests *)

Module Fixture.

Definition app1 : Application.t :=
  Application.mk 1 "TestApp" (Some "A test application") 10 10.
Definition app2 : Application.t := Application.mk 2 "App2" None 20 20.
Definition app3 : Application.t :=
  Application.mk 3 "App3" (Some "Description 3") 30 30.

Definition config1 : Configuration.t :=
  Configuration.mk 1 1 "database_url" (Some "postgresql://localhost:5432/dev")
    "development" 40 40.
Definition config2 : Configuration.t :=
  Configuration.mk 2 1 "database_url" (Some "postgresql://localhost:5432/prod")
    "production" 50 50.

Definition db0 : Pg.db := Pg.mkDb [app1; app2; app3] [config1; config2] 4.

End Fixture.

(** * Properties *)

(** ** The mock handlers *)

Section MockApiFacts.
Import MockApi.

Lemma findIndex_none_find (i : string) (l : list ApplicationResponse) :
  findIndex (same_id i) l = None -> List.find (same_id i) l = None.
Proof.
  induction l as [|a l IH]; simpl; [done|].
  destruct (same_id i a); [done|].
  destruct (findIndex (same_id i) l); [done|]. auto.
Qed.

Lemma find_none_absent (i : string) (l : list ApplicationResponse) :
  i ∉ List.map id l -> List.find (same_id i) l = None.
Proof.
  induction l as [|a l IH]; simpl; [done|].
  intros Hni. unfold same_id at 1. case_bool_decide as Ha.
  - exfalso. apply Hni. rewrite Ha. left.
  - apply IH. intros Hin. apply Hni. by right.
Qed.

Lemma splice_first_match (i : string) (l : list ApplicationResponse) (n : nat) :
  NoDup (List.map id l) ->
  findIndex (same_id i) l = Some n ->
  List.find (same_id i) (splice1 n l) = None.
Proof.
  revert n. induction l as [|a l IH]; intros n Hnd Hfi; simpl in *; [done|].
  apply NoDup_cons in Hnd as [Hni Hnd].
  destruct (same_id i a) eqn:Ha.
  - injection Hfi as <-. unfold splice1. simpl. rewrite drop_0.
    apply find_none_absent. unfold same_id in Ha.
    apply bool_decide_eq_true in Ha. by rewrite <- Ha.
  - destruct (findIndex (same_id i) l) as [m|] eqn:Hm; [|done].
    injection Hfi as <-. unfold splice1. simpl. rewrite Ha.
    by apply IH.
Qed.

Lemma known_find (s : store) (i : string) :
  known s i <-> List.find (same_id i) (mockApplications s) <> None.
Proof.
  unfold known. split.
  - intros (a & Hin & Hid) Hnone.
    apply list_elem_of_In in Hin.
    pose proof (find_none _ _ Hnone a Hin) as Hf.
    unfold same_id in Hf. by apply bool_decide_eq_false in Hf.
  - destruct (List.find _ _) as [a|] eqn:Hf; [|done]. intros _.
    apply find_some in Hf as [Hin Hp]. exists a. split.
    + by apply list_elem_of_In.
    + unfold same_id in Hp. by apply bool_decide_eq_true in Hp.
Qed.

End MockApiFacts.

(** C1. The configuration upsert of the mock API (PUT
    /api/v1/applications/:id/config) answers 200 with the supplied document,
    stores exactly that document under the application id (so a key of the
    previous document is readable afterwards only when the new document has
    it, with the new value), and is idempotent: a second identical request
    leaves the store as the first one left it and gets the same response. *)
Theorem put_config_replaces_and_is_idempotent
    (s : MockApi.store) (i : string) (doc : gmap string json) :
  let r1 := MockApi.put_config s i doc in
  let r2 := MockApi.put_config (fst r1) i doc in
  snd r1 = MockApi.mkResponse 200
             (MockApi.BConfiguration (MockApi.mkConfig i doc)) /\
  MockApi.mockConfigurations (fst r1) !! i = Some (MockApi.mkConfig i doc) /\
  (forall c, MockApi.mockConfigurations (fst r1) !! i = Some c ->
     forall k, MockApi.config c !! k = doc !! k) /\
  MockApi.get_config (fst r1) i = (fst r1, snd r1) /\
  fst r2 = fst r1 /\
  snd r2 = snd r1.
Proof.
  simpl. split_and!.
  - done.
  - apply lookup_insert_eq.
  - intros c Hc k. rewrite lookup_insert_eq in Hc. by injection Hc as <-.
  - unfold MockApi.get_config. simpl. by rewrite lookup_insert_eq.
  - by rewrite insert_insert_eq.
  - done.
Qed.



(** C6, as stated, fails: after the DELETE of the first stored application
    its configuration is still served, and a stored configuration refers to
    an application that no longer exists. *)
Lemma delete_application_keeps_configuration :
  let i := "01ARZ3NDEKTSV4RRFFQ69G5FAV" in
  let r := MockApi.delete_application MockApi.initial i in
  MockApi.referential MockApi.initial /\
  MockApi.status (snd r) = 204 /\
  MockApi.status (snd (MockApi.get_application (fst r) i)) = 404 /\
  MockApi.status (snd (MockApi.get_config (fst r) i)) = 200 /\
  ~ MockApi.referential (fst r).
Proof.
  simpl. split_and!; try done.
  - intros k c Hc. rewrite known_find.
    unfold MockApi.initial in Hc. cbn [MockApi.mockConfigurations] in Hc.
    apply lookup_insert_Some in Hc as [[<- <-]|[_ Hc]]; [done|].
    apply lookup_insert_Some in Hc as [[<- <-]|[_ Hc]]; [done|].
    by rewrite lookup_empty in Hc.
  - intros Href.
    specialize (Href "01ARZ3NDEKTSV4RRFFQ69G5FAV" _ (lookup_insert_eq _ _ _)).
    rewrite known_find in Href. by apply Href.
Qed.

(** POST gives every new application the same id, so two entries can share
    one; the DELETE then removes the first of them only and the id is still
    served. *)
Lemma delete_application_shared_id :
  let i := "01ARZ3NDEKTSV4RRFFQ69G5FC0" in
  let s1 := fst (MockApi.post_application MockApi.initial "a" None) in
  let s2 := fst (MockApi.post_application s1 "b" None) in
  let r := MockApi.delete_application s2 i in
  MockApi.status (snd r) = 204 /\
  snd (MockApi.get_application (fst r) i)
  = MockApi.mkResponse 200 (MockApi.BApplication (MockApi.mkApp i "b" None)).
Proof. split; reflexivity. Qed.

(** C6, amended. When every stored application has its own id, a successful
    DELETE (204) makes the GET of that application answer 404; it removes
    nothing from the configurations, so GET config answers for every id
    what it answered before the DELETE: there is no cascade. *)
Theorem delete_application_no_cascade (s : MockApi.store) (i : string) :
  NoDup (List.map MockApi.id (MockApi.mockApplications s)) ->
  MockApi.status (snd (MockApi.delete_application s i)) = 204 ->
  let s' := fst (MockApi.delete_application s i) in
  snd (MockApi.get_application s' i)
    = MockApi.mkResponse 404 (MockApi.BError "Application not found") /\
  ~ MockApi.known s' i /\
  MockApi.mockConfigurations s' = MockApi.mockConfigurations s /\
  (forall k, snd (MockApi.get_config s' k) = snd (MockApi.get_config s k)).
Proof.
  intros Hnd Hst. unfold MockApi.delete_application in *.
  destruct (MockApi.findIndex _ _) as [n|] eqn:Hfi; simpl in *; [|done].
  pose proof (splice_first_match _ _ _ Hnd Hfi) as Hfind.
  split_and!.
  - unfold MockApi.get_application. simpl. by rewrite Hfind.
  - rewrite known_find. simpl. rewrite Hfind. intros H. by apply H.
  - done.
  - intros k. unfold MockApi.get_config. simpl.
    by destruct (MockApi.mockConfigurations s !! k).
Qed.

Lemma delete_application_no_cascade_witness :
  let i := "01ARZ3NDEKTSV4RRFFQ69G5FB0" in
  let s' := fst (MockApi.delete_application MockApi.initial i) in
  snd (MockApi.get_application s' i)
    = MockApi.mkResponse 404 (MockApi.BError "Application not found") /\
  ~ MockApi.known s' i /\
  MockApi.mockConfigurations s' = MockApi.mockConfigurations MockApi.initial /\
  (forall k, snd (MockApi.get_config s' k)
             = snd (MockApi.get_config MockApi.initial k)).
Proof.
  apply (delete_application_no_cascade MockApi.initial "01ARZ3NDEKTSV4RRFFQ69G5FB0").
  - apply (bool_decide_unpack _). vm_compute. reflexivity.
  - reflexivity.
Defined.

(** ** Validation chains *)

Section ValidatorFacts.
Import Validator.

Lemma string_length_chain_paths f min max m v e :
  e ∈ string_length_chain f min max m v -> path e = f.
Proof.
  unfold string_length_chain. rewrite elem_of_app. intros [He|He].
  - destruct (isString v); [by apply elem_of_nil in He|].
    by apply list_elem_of_singleton in He as ->.
  - apply list_elem_of_In, in_flat_map in He as (x & _ & He).
    destruct (isLength _ _ _); [done|]. by destruct He as [<-|[]].
Qed.

Lemma string_length_chain_string f min max m s :
  string_length_chain f min max m (Val (JStr s))
  = if isLength min max s then [] else [mkError f m].
Proof.
  unfold string_length_chain. simpl. by destruct (isLength min max s).
Qed.

Lemma string_length_chain_not_string f min max m v :
  isString v = false -> mkError f invalid_value ∈ string_length_chain f min max m v.
Proof.
  intros Hv. unfold string_length_chain. rewrite Hv. apply elem_of_app. left.
  apply list_elem_of_singleton. done.
Qed.

(** The chain records nothing exactly on the strings of a length within the
    bounds. *)
Lemma string_length_chain_nil f min max m v :
  string_length_chain f min max m v = []
  <-> exists s, v = Val (JStr s) /\ isLength min max s = true.
Proof.
  split.
  - intros Hnil. destruct (isString v) eqn:Hv.
    + destruct v as [|[]]; try done. exists s. split; [done|].
      rewrite string_length_chain_string in Hnil.
      by destruct (isLength min max s).
    + pose proof (string_length_chain_not_string f min max m v Hv) as Hin.
      rewrite Hnil in Hin. by apply elem_of_nil in Hin.
  - intros (s & -> & Hlen). by rewrite string_length_chain_string, Hlen.
Qed.

Lemma optional_string_chain_nil f m v :
  optional_string_chain f m v = []
  <-> v = Undefined \/ exists s, v = Val (JStr s).
Proof.
  unfold optional_string_chain. split.
  - destruct v as [|[]]; try done; eauto.
  - by intros [->|(s & ->)].
Qed.

Lemma optional_string_chain_paths f m v e :
  e ∈ optional_string_chain f m v -> path e = f.
Proof.
  unfold optional_string_chain.
  destruct v as [|j]; [by intros ?%elem_of_nil|].
  destruct (isString _); [by intros ?%elem_of_nil|].
  by intros ->%list_elem_of_singleton.
Qed.

Lemma int_chain_nil f min max m s :
  int_chain f min max m s = [] <-> isInt min max s = true.
Proof. unfold int_chain. by destruct (isInt min max s). Qed.

(** A literal that denotes a positive number passes [isInt({ min: 1 })]. *)
Lemma isInt_positive s (p : positive) :
  int_literal s = Some (Z.pos p) -> isInt 1 None s = true.
Proof. unfold isInt. intros ->. rewrite andb_true_r. apply Z.leb_le. lia. Qed.

End ValidatorFacts.

Section RoutesFacts.
Import Validator Routes.

Lemma createApplicationValidation_nil name description :
  createApplicationValidation name description = []
  <-> (exists s, name = Val (JStr s) /\ isLength 1 255 s = true) /\
      (description = Undefined \/ exists s, description = Val (JStr s)).
Proof.
  unfold createApplicationValidation.
  rewrite app_nil, string_length_chain_nil, optional_string_chain_nil. done.
Qed.

(** The fields that reach a statement of [create] are a string and a string
    or nothing: [Pg.param] renders them unchanged. *)
Lemma create_validated_fields name description :
  createApplicationValidation name description = [] ->
  exists s, name = Val (JStr s) /\ Pg.param name = Some s /\
    isLength 1 255 s = true /\
    ((description = Undefined /\ Pg.param description = None) \/
     exists t, description = Val (JStr t) /\ Pg.param description = Some t).
Proof.
  rewrite createApplicationValidation_nil.
  intros [(s & -> & Hlen) [->|(t & ->)]]; exists s; split_and!; eauto.
Qed.

(** [createApplicationValidation] reports the field [name] exactly when the
    name is not a string of 1 to 255 characters. *)
Lemma create_name_error name description :
  (exists e, e ∈ createApplicationValidation name description /\ path e = "name")
  <-> ~ exists s, name = Val (JStr s) /\ isLength 1 255 s = true.
Proof.
  unfold createApplicationValidation. split.
  - intros (e & He & Hp) Hs. apply string_length_chain_nil with
      (f := "name") (m := name_message) in Hs.
    rewrite Hs in He. simpl in He.
    apply optional_string_chain_paths in He. congruence.
  - intros Hn.
    destruct (string_length_chain "name" 1 255 name_message name) as [|e l] eqn:Hc.
    + exfalso. apply Hn. by apply string_length_chain_nil in Hc.
    + exists e. split.
      * apply elem_of_app. left. left.
      * apply (string_length_chain_paths "name" 1 255 name_message name).
        rewrite Hc. left.
Qed.

Lemma updateApplicationValidation_nil id name description :
  updateApplicationValidation id name description = []
  <-> isInt 1 None id = true /\
      (name = Undefined \/ exists s, name = Val (JStr s) /\ isLength 1 255 s = true) /\
      (description = Undefined \/ exists s, description = Val (JStr s)).
Proof.
  unfold updateApplicationValidation.
  rewrite !app_nil, int_chain_nil, optional_string_chain_nil.
  assert (optional_string_length_chain "name" 1 255 name_message name = []
          <-> name = Undefined \/
              exists s, name = Val (JStr s) /\ isLength 1 255 s = true) as ->; [|done].
  unfold optional_string_length_chain. destruct name as [|j].
  - split; auto.
  - rewrite string_length_chain_nil. split; [eauto|]. by intros [|].
Qed.

End RoutesFacts.

(** ** The store *)

Section PgFacts.
Import Pg.

Lemma NoDup_map_eq {A B} (f : A -> B) (l : list A) (a b : A) :
  NoDup (List.map f l) -> a ∈ l -> b ∈ l -> f a = f b -> a = b.
Proof.
  induction l as [|x l IH]; intros Hnd Ha Hb Hf; [by apply elem_of_nil in Ha|].
  simpl in Hnd. apply NoDup_cons in Hnd as [Hx Hnd].
  apply elem_of_cons in Ha as [->|Ha]; apply elem_of_cons in Hb as [->|Hb]; auto.
  - exfalso. apply Hx. rewrite Hf. apply list_elem_of_In, in_map.
    by apply list_elem_of_In.
  - exfalso. apply Hx. rewrite <- Hf. apply list_elem_of_In, in_map.
    by apply list_elem_of_In.
Qed.

Lemma filter_none {A} (f : A -> bool) (l : list A) :
  (forall x, In x l -> f x = false) -> List.filter f l = [].
Proof.
  induction l as [|x l IH]; intros Hf; simpl; [done|].
  rewrite (Hf x); [|by left]. apply IH. intros y Hy. apply Hf. by right.
Qed.

Lemma has_id_true i a : has_id i a = true <-> Z.pos (Application.id a) = i.
Proof. unfold has_id. apply bool_decide_eq_true. Qed.

Lemma has_id_self a : has_id (Z.pos (Application.id a)) a = true.
Proof. by apply has_id_true. Qed.

Lemma has_id_other a b :
  Application.id b <> Application.id a ->
  has_id (Z.pos (Application.id a)) b = false.
Proof.
  intros Hne. unfold has_id. apply bool_decide_eq_false. intros [=]. done.
Qed.

(** Under the primary key the rows of an id are one row. *)
Lemma filter_has_id (l : list Application.t) (a : Application.t) :
  NoDup (List.map Application.id l) -> a ∈ l ->
  List.filter (has_id (Z.pos (Application.id a))) l = [a].
Proof.
  induction l as [|x l IH]; intros Hnd Ha; [by apply elem_of_nil in Ha|].
  simpl in *. apply NoDup_cons in Hnd as [Hx Hnd].
  apply elem_of_cons in Ha as [->|Ha].
  - rewrite has_id_self. f_equal.
    apply filter_none. intros b Hb. apply has_id_other. intros Heq. apply Hx.
    rewrite <- Heq. apply list_elem_of_In. by apply in_map.
  - rewrite has_id_other; [by apply IH|].
    intros Heq. apply Hx. rewrite Heq. apply list_elem_of_In, in_map.
    by apply list_elem_of_In.
Qed.




Lemma existsb_has_name_true (n : string) (l : list Application.t) (a : Application.t) :
  a ∈ l -> Application.name a = n -> existsb (has_name n) l = true.
Proof.
  intros Ha Hn. apply existsb_exists. exists a. split; [by apply list_elem_of_In|].
  unfold has_name. by apply bool_decide_eq_true.
Qed.

Lemma name_taken_true (a' b : Application.t) (l : list Application.t) :
  b ∈ l -> Application.id b <> Application.id a' ->
  Application.name b = Application.name a' -> name_taken a' l = true.
Proof.
  intros Hb Hid Hn. apply existsb_exists. exists b.
  split; [by apply list_elem_of_In|].
  apply andb_true_iff. split.
  - apply negb_true_iff. by apply bool_decide_eq_false.
  - unfold has_name. by apply bool_decide_eq_true.
Qed.

Lemma name_taken_false (a' : Application.t) (l : list Application.t) :
  (forall b, b ∈ l -> Application.id b <> Application.id a' ->
     Application.name b <> Application.name a') ->
  name_taken a' l = false.
Proof.
  intros Hno. destruct (name_taken a' l) eqn:He; [|done].
  apply existsb_exists in He as (b & Hb & Hc).
  apply andb_true_iff in Hc as [Hid Hn]. exfalso.
  apply negb_true_iff, bool_decide_eq_false in Hid.
  unfold has_name in Hn. apply bool_decide_eq_true in Hn.
  apply (Hno b); [by apply list_elem_of_In|done|done].
Qed.

(** A row that keeps its name clashes with no other row. *)
Lemma name_taken_unchanged (a a' : Application.t) (l : list Application.t) :
  NoDup (List.map Application.name l) -> a ∈ l ->
  Application.id a' = Application.id a ->
  Application.name a' = Application.name a ->
  name_taken a' l = false.
Proof.
  intros Hnd Ha Hid Hn. apply name_taken_false. intros b Hb Hne Heq.
  apply Hne. rewrite Hid. f_equal.
  apply (NoDup_map_eq Application.name l); auto. congruence.
Qed.

Lemma isLength_max (s : string) :
  Validator.isLength 1 255 s = true -> (255 <? String.length s)%nat = false.
Proof.
  unfold Validator.isLength. intros [_ H]%andb_true_iff.
  apply Nat.leb_le in H. apply Nat.ltb_ge. done.
Qed.

(** The UPDATE of the one row [a], when the written row fits the column and
    its name is free. *)
Lemma update_application_row (d : db) (a : Application.t)
    (name description : option string) (now : Z) :
  NoDup (List.map Application.id (applications d)) -> a ∈ applications d ->
  let a' := updated_row a name description now in
  Validator.isLength 1 255 (Application.name a') = true ->
  name_taken a' (applications d) = false ->
  update_application d name description (Z.pos (Application.id a)) now
  = inr (mkDb (write_rows (Z.pos (Application.id a)) name description now
                 (applications d))
           (configurations d) (applications_id_seq d),
         [a']).
Proof.
  intros Hnd Ha a' Hlen Hfree. unfold update_application.
  rewrite (filter_has_id _ _ Hnd Ha). cbn [List.map existsb]. fold a'.
  by rewrite !orb_false_r, (isLength_max _ Hlen), Hfree.
Qed.



(** No UPDATE turns a description into NULL, changes an id or a creation
    time, on any table. *)
Lemma write_rows_keep (i : Z) (name description : option string) (now : Z)
    (l : list Application.t) :
  Forall2
    (fun b b' =>
       Application.id b' = Application.id b /\
       Application.created_at b' = Application.created_at b /\
       (is_Some (Application.description b) -> is_Some (Application.description b')))
    l (write_rows i name description now l).
Proof.
  induction l as [|b l IH]; simpl; constructor; [|done].
  destruct (has_id i b); [|done]. simpl.
  split_and!; [done|done|]. by destruct description.
Qed.

End PgFacts.

(** ** POST and PUT /api/applications *)

Section ApplicationRoutes.
Import Pg Http Routes.

Lemma param_field (o : option string) : Pg.param (field o) = o.
Proof. by destruct o. Qed.


Lemma update_validation_typed (id : string) (p : positive)
    (name description : option string) :
  Pg.int4 id = Some (Z.pos p) ->
  (forall n, name = Some n -> Validator.isLength 1 255 n = true) ->
  updateApplicationValidation id (field name) (field description) = [].
Proof.
  intros Hid Hname. apply updateApplicationValidation_nil. split_and!.
  - by apply (isInt_positive id p).
  - destruct name as [n|]; simpl; [right|by left]. exists n. auto.
  - destruct description; simpl; eauto.
Qed.

(** The store after a PUT is the store before it, or the store whose rows of
    the id have been written. *)
Lemma put_application_db (id : string) (name description : jsval) (d : db)
    (now : Z) :
  let d' := fst (put_application id name description d now) in
  d' = d \/
  exists i, Pg.int4 id = Some i /\
    d' = mkDb (write_rows i (param name) (param description) now (applications d))
           (configurations d) (applications_id_seq d).
Proof.
  unfold put_application, ApplicationController.update.
  destruct (updateApplicationValidation _ _ _); [|by left].
  destruct (Pg.int4 id) as [i|]; [|by left].
  unfold update_application.
  destruct (existsb _ _); [by left|]. destruct (existsb _ _); [by left|].
  right. exists i. split; [done|]. simpl.
  by destruct (List.map _ (List.filter _ _)).
Qed.

(** A PUT on the row [a] that passes validation, fits the column and takes
    no other row's name answers 200 with the written row. *)
Lemma put_application_ok (d : db) (a : Application.t) (id : string)
    (name description : option string) (now : Z) :
  wf d -> a ∈ applications d -> Pg.int4 id = Some (Z.pos (Application.id a)) ->
  let a' := updated_row a name description now in
  Validator.isLength 1 255 (Application.name a') = true ->
  (forall n, name = Some n -> Validator.isLength 1 255 n = true) ->
  name_taken a' (applications d) = false ->
  put_application id (field name) (field description) d now
  = (mkDb (write_rows (Z.pos (Application.id a)) name description now
             (applications d))
       (configurations d) (applications_id_seq d),
     mkResponse 200 (BApplication (application_response a'))).
Proof.
  intros (Hpk & _) Ha Hid a' Hlen Hname Hfree.
  unfold put_application, ApplicationController.update.
  rewrite (update_validation_typed id _ name description Hid Hname), Hid.
  rewrite !param_field.
  by rewrite (update_application_row d a name description now Hpk Ha Hlen Hfree).
Qed.

End ApplicationRoutes.

(** ** The constraints of the store are invariants of the routes *)

Section Invariant.
Import Pg Routes.

Lemma empty_wf : wf Pg.empty.
Proof. unfold wf, Pg.empty. simpl. split_and!; constructor. Qed.

Lemma write_rows_ids (i : Z) (name description : option string) (now : Z)
    (l : list Application.t) :
  List.map Application.id (write_rows i name description now l)
  = List.map Application.id l.
Proof.
  unfold write_rows. rewrite List.map_map. apply List.map_ext.
  intros b. by destruct (has_id i b).
Qed.

Lemma insert_application_wf (d : db) (n : string) (description : option string)
    (now : Z) :
  wf d -> Validator.isLength 1 255 n = true ->
  wf (fst (insert_application d (Some n) description now)).
Proof.
  intros (Hpk & Hun & Hseq & Hlen & Hfk) Hn. unfold insert_application.
  rewrite (isLength_max _ Hn).
  assert (Forall (fun a => (Application.id a < Pos.succ (applications_id_seq d))%positive)
            (applications d)) as Hseq'.
  { eapply Forall_impl; [exact Hseq|]. simpl. intros a. lia. }
  destruct (existsb (has_name n) (applications d)) eqn:He; simpl.
  - by split_and!.
  - rewrite Forall_forall in Hseq.
    unfold wf. simpl. rewrite !List.map_app. simpl. split_and!.
    + apply NoDup_app. split_and!; [done| |apply NoDup_singleton].
      intros x Hx ->%list_elem_of_singleton.
      apply list_elem_of_In, in_map_iff in Hx as (a & Hid & Ha).
      apply list_elem_of_In, Hseq in Ha. lia.
    + apply NoDup_app. split_and!; [done| |apply NoDup_singleton].
      intros x Hx ->%list_elem_of_singleton.
      apply list_elem_of_In, in_map_iff in Hx as (a & Hname & Ha).
      assert (existsb (has_name n) (applications d) = true); [|congruence].
      apply (existsb_has_name_true n _ a); [by apply list_elem_of_In|done].
    + apply Forall_app. split; [done|]. constructor; [simpl; lia|constructor].
    + apply Forall_app. split; [done|]. by constructor.
    + eapply Forall_impl; [exact Hfk|]. simpl. intros c Hc.
      apply Exists_app. by left.
Qed.

(** POST /api/applications keeps the constraints. *)
Lemma post_application_wf (name description : jsval) (d : db) (now : Z) :
  wf d -> wf (fst (post_application name description d now)).
Proof.
  intros Hwf. unfold post_application, ApplicationController.create.
  destruct (createApplicationValidation name description) eqn:Hv; [|done].
  apply create_validated_fields in Hv as (s & -> & _ & Hlen & _).
  cbn [param Validator.toString].
  pose proof (insert_application_wf d s (param description) now Hwf Hlen) as H.
  by destruct (insert_application d (Some s) (param description) now) as [d' [|]].
Qed.

Lemma write_rows_wf (d : db) (i : Z) (name description : option string)
    (now : Z) :
  wf d ->
  (forall n, name = Some n -> Validator.isLength 1 255 n = true) ->
  existsb (fun a' => name_taken a' (applications d))
    (List.map (fun a => updated_row a name description now)
       (List.filter (has_id i) (applications d))) = false ->
  wf (mkDb (write_rows i name description now (applications d))
        (configurations d) (applications_id_seq d)).
Proof.
  intros (Hpk & Hun & Hseq & Hlen & Hfk) Hname Hfree.
  assert (forall b, b ∈ applications d -> has_id i b = true ->
            name_taken (updated_row b name description now) (applications d) = false)
    as Hfree'.
  { intros b Hb Hid. destruct (name_taken _ _) eqn:Ht; [|done].
    assert (existsb (fun a' => name_taken a' (applications d))
              (List.map (fun a => updated_row a name description now)
                 (List.filter (has_id i) (applications d))) = true); [|congruence].
    apply existsb_exists. exists (updated_row b name description now).
    split; [|done].
    apply (in_map (fun a => updated_row a name description now)).
    apply filter_In. split; [|done]. by apply list_elem_of_In. }
  unfold wf. cbn [applications configurations applications_id_seq].
  rewrite write_rows_ids. split_and!.
  - done.
  - unfold write_rows. rewrite List.map_map. apply NoDup_alt.
    intros j1 j2 x H1 H2.
    apply (list_lookup_fmap_Some_1
             (fun b => Application.name
                         (if has_id i b then updated_row b name description now
                          else b))) in H1 as (b1 & -> & H1).
    apply (list_lookup_fmap_Some_1
             (fun b => Application.name
                         (if has_id i b then updated_row b name description now
                          else b))) in H2 as (b2 & Heq & H2).
    pose proof (list_elem_of_lookup_2 _ _ _ H1) as Hb1.
    pose proof (list_elem_of_lookup_2 _ _ _ H2) as Hb2.
    destruct (decide (Application.id b1 = Application.id b2)) as [Hsame|Hdiff].
    { apply (proj1 (NoDup_alt _) Hpk j1 j2 (Application.id b1)).
      - apply (list_lookup_fmap_Some_2 Application.id _ _ _ H1).
      - rewrite Hsame. apply (list_lookup_fmap_Some_2 Application.id _ _ _ H2). }
    exfalso.
    destruct (has_id i b1) eqn:Hi1, (has_id i b2) eqn:Hi2.
    + apply has_id_true in Hi1, Hi2. apply Hdiff. congruence.
    + pose proof (Hfree' b1 Hb1 Hi1) as Hf.
      rewrite (name_taken_true _ b2) in Hf; [done|done| |done].
      simpl. congruence.
    + pose proof (Hfree' b2 Hb2 Hi2) as Hf.
      rewrite (name_taken_true _ b1) in Hf; [done|done| |done].
      simpl. congruence.
    + assert (j1 = j2) as ->.
      { apply (proj1 (NoDup_alt _) Hun j1 j2 (Application.name b1)).
        - apply (list_lookup_fmap_Some_2 Application.name _ _ _ H1).
        - rewrite Heq. apply (list_lookup_fmap_Some_2 Application.name _ _ _ H2). }
      apply Hdiff. congruence.
  - rewrite Forall_forall in Hseq. apply Forall_forall. intros b Hb.
    apply list_elem_of_In, in_map_iff in Hb as (b0 & <- & Hb0).
    apply list_elem_of_In, Hseq in Hb0. by destruct (has_id i b0).
  - rewrite Forall_forall in Hlen. apply Forall_forall. intros b Hb.
    apply list_elem_of_In, in_map_iff in Hb as (b0 & <- & Hb0).
    apply list_elem_of_In, Hlen in Hb0.
    destruct (has_id i b0); [|done]. simpl.
    destruct name as [n|]; simpl; [by apply Hname|done].
  - eapply Forall_impl; [exact Hfk|]. simpl. intros c Hc.
    apply Exists_exists in Hc as (a & Ha & Hid).
    apply Exists_exists.
    exists (if has_id i a then updated_row a name description now else a).
    split; [|by destruct (has_id i a)].
    unfold write_rows. apply list_elem_of_In.
    apply (in_map (fun b => if has_id i b
                            then updated_row b name description now else b)).
    by apply list_elem_of_In.
Qed.

(** PUT /api/applications/:id keeps the constraints. *)
Lemma put_application_wf (id : string) (name description : jsval) (d : db)
    (now : Z) :
  wf d -> wf (fst (put_application id name description d now)).
Proof.
  intros Hwf. unfold put_application, ApplicationController.update.
  destruct (updateApplicationValidation id name description) eqn:Hv; [|done].
  apply updateApplicationValidation_nil in Hv as (_ & Hname & _).
  destruct (Pg.int4 id) as [i|]; [|done].
  unfold update_application.
  destruct (existsb _ _); [done|].
  destruct (existsb _ _) eqn:Hfree; [done|].
  assert (wf (mkDb (write_rows i (param name) (param description) now
                      (applications d))
                (configurations d) (applications_id_seq d))) as Hwf'.
  { apply write_rows_wf; [done| |done].
    intros n Hn. destruct Hname as [->|(s & -> & Hlen)]; [done|].
    simpl in Hn. by injection Hn as <-. }
  by destruct (List.map _ (List.filter _ _)).
Qed.

End Invariant.






(** C9. On a store that satisfies its constraints, an update of an existing
    application that supplies neither [name] nor [description] answers 200
    with the row whose name, description, id and creation time are the old
    ones and whose [updated_at] is the time of the request, and writes that
    row.  And on any store, whatever a PUT request carries, no row loses its
    description (a NULL parameter is coalesced to the stored value), its id
    or its creation time. *)
Theorem update_without_fields_refreshes_updated_at (d : Pg.db)
    (a : Application.t) (id : string) (now : Z) :
  Pg.wf d -> a ∈ Pg.applications d ->
  Pg.int4 id = Some (Z.pos (Application.id a)) ->
  let a' := Application.mk (Application.id a) (Application.name a)
              (Application.description a) (Application.created_at a) now in
  Routes.put_application id Undefined Undefined d now
  = (Pg.mkDb (Pg.write_rows (Z.pos (Application.id a)) None None now
                (Pg.applications d))
       (Pg.configurations d) (Pg.applications_id_seq d),
     Http.mkResponse 200 (Http.BApplication (Http.application_response a'))) /\
  a' ∈ Pg.applications (fst (Routes.put_application id Undefined Undefined d now)) /\
  (forall (d0 : Pg.db) id0 name description now0,
     Forall2
       (fun b b' =>
          Application.id b' = Application.id b /\
          Application.created_at b' = Application.created_at b /\
          (is_Some (Application.description b) ->
           is_Some (Application.description b')))
       (Pg.applications d0)
       (Pg.applications (fst (Routes.put_application id0 name description d0 now0)))).
Proof.
  intros Hwf Ha Hid a'. pose proof Hwf as (Hpk & Hun & _ & Hlen & _).
  rewrite Forall_forall in Hlen.
  assert (Routes.put_application id Undefined Undefined d now
          = (Pg.mkDb (Pg.write_rows (Z.pos (Application.id a)) None None now
                        (Pg.applications d))
               (Pg.configurations d) (Pg.applications_id_seq d),
             Http.mkResponse 200 (Http.BApplication (Http.application_response a'))))
    as Hput.
  { apply (put_application_ok d a id None None now Hwf Ha Hid).
    - simpl. by apply Hlen.
    - by intros ? [=].
    - by apply (name_taken_unchanged a). }
  split_and!.
  - done.
  - rewrite Hput. cbn [fst Pg.applications]. unfold Pg.write_rows.
    apply list_elem_of_In, in_map_iff. exists a.
    split; [|by apply list_elem_of_In].
    by rewrite has_id_self.
  - intros d0 id0 name description now0.
    destruct (put_application_db id0 name description d0 now0)
      as [->|(i & _ & ->)].
    + apply Forall2_same_length_lookup. split; [done|].
      intros k b b' Hb Hb'. rewrite Hb in Hb'. by injection Hb' as ->.
    + apply write_rows_keep.
Qed.

Lemma update_without_fields_refreshes_updated_at_witness :
  Routes.put_application "1" Undefined Undefined Fixture.db0 60
  = (Pg.mkDb
       [Application.mk 1 "TestApp" (Some "A test application") 10 60;
        Fixture.app2; Fixture.app3]
       (Pg.configurations Fixture.db0) 4,
     Http.mkResponse 200
       (Http.BApplication
          (Http.application_response
             (Application.mk 1 "TestApp" (Some "A test application") 10 60)))).
Proof.
  apply (update_without_fields_refreshes_updated_at Fixture.db0 Fixture.app1 "1" 60).
  - apply (bool_decide_unpack _). vm_compute. reflexivity.
  - simpl. left.
  - reflexivity.
Defined.

(** ** GET /api/applications *)

#[global] Instance newer_total : Total Pg.newer.
Proof. intros a b. unfold Pg.newer. lia. Qed.

#[global] Instance newer_trans : Transitive Pg.newer.
Proof. intros a b c. unfold Pg.newer. lia. Qed.

Section Pagination.





End Pagination.



(** ** GET /api/configurations/application/:applicationId *)





(** ** The name rules of the server and of the form *)

Section NameRules.
Import CreateAppForm.

Lemma name_char_not_ws (c : ascii) : name_char c = true -> Js.is_ws c = false.
Proof.
  destruct c as [[] [] [] [] [] [] [] []]; vm_compute; congruence.
Qed.

Lemma name_regex_spec (s : string) :
  name_regex s = true
  <-> s <> "" /\ Forall (fun c => name_char c = true) (list_ascii_of_string s).
Proof.
  rewrite Forall_forall. destruct s as [|c r].
  - simpl. split; [done|]. by intros [? _].
  - cbn [name_regex]. rewrite forallb_forall. split.
    + intros H. split; [done|]. intros x Hx. apply H. by apply list_elem_of_In.
    + intros [_ H] x Hx. apply H. by apply list_elem_of_In.
Qed.

Lemma name_regex_not_blank (s : string) : name_regex s = true -> Js.blank s = false.
Proof.
  destruct s as [|c r]; [done|]. cbn [name_regex list_ascii_of_string forallb].
  intros [Hc _]%andb_true_iff. simpl. by rewrite (name_char_not_ws c Hc).
Qed.

(** [validateForm] leaves no error on the name exactly when the name matches
    the expression. *)
Lemma validation_name_error (f : ApplicationCreate) :
  name_error (validation f) = None <-> name_regex (name f) = true.
Proof.
  unfold validation. cbn [name_error].
  destruct (Js.blank (name f)) eqn:Hb.
  - split; [done|]. intros Hr. apply name_regex_not_blank in Hr. congruence.
  - by destruct (name_regex (name f)).
Qed.

(** A form whose name is in error sends nothing. *)
Lemma submitForm_invalid_name (api : ApplicationCreate -> ConfigClient.ApiResponse)
    (s : state) :
  name_regex (name (formData s)) = false ->
  (forall data, CreateApplication data ∉ snd (submitForm api s)) /\
  (loadingState s <> loading ->
   submitForm api s
   = (mkState (formData s) (loadingState s) (error s) (validation (formData s)),
      [Render])).
Proof.
  intros Hr.
  assert (no_errors (validation (formData s)) = false) as Hne.
  { unfold no_errors.
    destruct (name_error (validation (formData s))) eqn:He; [done|].
    apply validation_name_error in He. congruence. }
  unfold submitForm, validateForm. rewrite Hne. simpl. split.
  - intros data Hin. destruct (loadingState s).
    + apply list_elem_of_singleton in Hin. done.
    + by apply elem_of_nil in Hin.
    + apply list_elem_of_singleton in Hin. done.
    + apply list_elem_of_singleton in Hin. done.
  - intros Hl. by destruct (loadingState s).
Qed.

End NameRules.

(** C7, as stated, fails: the name "my app" has a character outside
    [A-Za-z0-9_-], yet the server raises no validation error for it and
    stores the application. *)
Lemma create_accepts_name_outside_charset :
  CreateAppForm.name_regex "my app" = false /\
  Routes.createApplicationValidation (Val (JStr "my app")) Undefined = [] /\
  Routes.post_application (Val (JStr "my app")) Undefined Pg.empty 0
  = (Pg.mkDb [Application.mk 1 "my app" None 0 0] [] 2,
     Http.mkResponse 201
       (Http.BApplication
          (Http.application_response (Application.mk 1 "my app" None 0 0)))).
Proof. split_and!; reflexivity. Qed.

(** C7, amended. The server rejects a create-Application request with 400
    and an error on the field [name], before any record is created, exactly
    when the name is not a string of 1 to 255 characters; it does not look
    at the characters.  The charset is the rule of the form: [validateForm]
    leaves no error on the name exactly when the name is not empty and all
    its characters are in [A-Za-z0-9_-], and [submitForm] sends no request
    for a name in error. *)
Theorem create_name_rules :
  (forall name description d now,
     (~ exists s, name = Val (JStr s) /\ Validator.isLength 1 255 s = true) ->
     exists errors e,
       Routes.post_application name description d now
       = (d, Http.mkResponse 400 (Http.BValidation errors)) /\
       e ∈ errors /\ Validator.path e = "name") /\
  (forall name description e,
     (exists s, name = Val (JStr s) /\ Validator.isLength 1 255 s = true) ->
     e ∈ Routes.createApplicationValidation name description ->
     Validator.path e <> "name") /\
  (forall f,
     CreateAppForm.name_error (CreateAppForm.validation f) = None
     <-> CreateAppForm.name f <> "" /\
         Forall (fun c => CreateAppForm.name_char c = true)
           (list_ascii_of_string (CreateAppForm.name f))) /\
  (forall api s data,
     CreateAppForm.name_error (CreateAppForm.validation (CreateAppForm.formData s))
       <> None ->
     CreateAppForm.CreateApplication data ∉ snd (CreateAppForm.submitForm api s)).
Proof.
  split_and!.
  - intros name description d now Hbad.
    apply (create_name_error name description) in Hbad as (e & He & Hp).
    exists (Routes.createApplicationValidation name description), e.
    split_and!; [|done|done].
    unfold Routes.post_application, ApplicationController.create.
    destruct (Routes.createApplicationValidation name description);
      [by apply elem_of_nil in He|done].
  - intros name description e Hok He Hp.
    apply (create_name_error name description); eauto.
  - intros f. rewrite validation_name_error. apply name_regex_spec.
  - intros api s data Herr.
    apply submitForm_invalid_name.
    destruct (CreateAppForm.name_regex _) eqn:Hr; [|done].
    by apply validation_name_error in Hr.
Qed.

Lemma create_name_rules_witness :
  (exists errors e,
     Routes.post_application (Val (JStr "")) Undefined Fixture.db0 60
     = (Fixture.db0, Http.mkResponse 400 (Http.BValidation errors)) /\
     e ∈ errors /\ Validator.path e = "name") /\
  CreateAppForm.CreateApplication (CreateAppForm.mkForm "my app" None)
  ∉ snd (CreateAppForm.submitForm
           (fun _ => ConfigClient.Success Undefined)
           (CreateAppForm.mkState (CreateAppForm.mkForm "my app" None)
              CreateAppForm.idle (Val JNull) (CreateAppForm.mkErrors None None))).
Proof.
  destruct create_name_rules as (Hserver & _ & _ & Hform). split.
  - apply Hserver. intros (s & [= <-] & Hlen). discriminate.
  - apply Hform. discriminate.
Defined.

(** ** The client *)

Section ClientFacts.
Import ConfigClient.

Variable fetch : string -> RequestInit -> outcome Response.
Variable baseUrl : string.


(** Every public method is [request] at some endpoint with some options. *)
Lemma invoke_request (c : call) :
  exists endpoint options,
    invoke fetch baseUrl c = request fetch baseUrl endpoint options.
Proof. destruct c; simpl; eauto. Qed.

Lemma request_fetch_thrown endpoint options e :
  fetch (baseUrl ++ endpoint) (merged options) = Thrown e ->
  request fetch baseUrl endpoint options = on_catch e.
Proof. unfold request. by intros ->. Qed.

Lemma request_not_ok endpoint options resp :
  fetch (baseUrl ++ endpoint) (merged options) = Returned resp ->
  ok resp = false ->
  request fetch baseUrl endpoint options
  = match json_body resp with
    | Returned error =>
        match detail error with
        | Returned d => Returned (Failure d)
        | Thrown e => on_catch e
        end
    | Thrown e => on_catch e
    end.
Proof.
  unfold request. intros -> Hok. simpl. rewrite Hok. simpl.
  destruct (json_body resp) as [error|e]; simpl; [|done].
  by destruct (detail error).
Qed.


End ClientFacts.




(** * Further properties of the modelled code *)

(** ** Numbers written and read as text *)

Section Numerals.










End Numerals.






(** ** The application routes: round trips, identifiers and paging *)

Section ApplicationRoutesMore.
Import Pg Http Routes.






End ApplicationRoutesMore.












(** ** The configuration routes *)

Section ConfigurationRoutes.
Import Pg PgConfigurations Routes.

Lemma find_has_id (l : list Application.t) (a : Application.t) :
  NoDup (List.map Application.id l) -> a ∈ l ->
  List.find (Pg.has_id (Z.pos (Application.id a))) l = Some a.
Proof.
  intros Hnd Ha. pose proof (filter_has_id l a Hnd Ha) as Hf.
  induction l as [|x l IH]; [by apply elem_of_nil in Ha|].
  simpl in *. destruct (Pg.has_id _ x) eqn:Hx.
  - by injection Hf as ->.
  - apply NoDup_cons in Hnd as [_ Hnd]. apply IH; [done| |done].
    apply elem_of_cons in Ha as [->|Ha]; [|done].
    by rewrite has_id_self in Hx.
Qed.

Lemma find_has_id_none (l : list Application.t) (i : Z) :
  (forall a, a ∈ l -> Z.pos (Application.id a) <> i) ->
  List.find (Pg.has_id i) l = None.
Proof.
  intros Hno. destruct (List.find _ l) as [a|] eqn:Hf; [|done].
  apply find_some in Hf as [Ha Hid]. apply has_id_true in Hid.
  exfalso. apply (Hno a); [by apply list_elem_of_In|done].
Qed.





Lemma isLength_max_50 (s : string) :
  Validator.isLength 1 50 s = true -> (50 <? String.length s)%nat = false.
Proof.
  unfold Validator.isLength. intros [_ H]%andb_true_iff.
  apply Nat.leb_le in H. by apply Nat.ltb_ge.
Qed.


End ConfigurationRoutes.



Section ConfigurationCreate.
Import Pg PgConfigurations Routes.




End ConfigurationCreate.



Section ConfigurationRead.
Import Pg PgConfigurations Routes.


Lemma config_has_id_true i c :
  PgConfigurations.has_id i c = true <-> Z.pos (Configuration.id c) = i.
Proof. unfold PgConfigurations.has_id. apply bool_decide_eq_true. Qed.




End ConfigurationRead.



Section ConfigurationUpdate.
Import Pg PgConfigurations Routes.



Lemma triple_taken_true (c' c2 : Configuration.t) (l : list Configuration.t) :
  c2 ∈ l -> Configuration.id c2 <> Configuration.id c' ->
  triple c2 = triple c' -> triple_taken c' l = true.
Proof.
  intros Hc Hid Ht. apply existsb_exists. exists c2.
  split; [by apply list_elem_of_In|].
  apply andb_true_iff. split.
  - apply negb_true_iff. by apply bool_decide_eq_false.
  - by apply bool_decide_eq_true.
Qed.




End ConfigurationUpdate.





(** ** The constraints of both tables are invariants of the application *)

Section StoreInvariant.
Import Pg PgConfigurations Routes.

Lemma createConfigurationValidation_fields application_id key value environment :
  createConfigurationValidation application_id key value environment = [] ->
  exists k e, key = Val (JStr k) /\ environment = Val (JStr e) /\
    Validator.isLength 1 255 k = true /\ Validator.isLength 1 50 e = true.
Proof.
  unfold createConfigurationValidation. rewrite !app_nil.
  intros (_ & Hk & _ & He).
  apply string_length_chain_nil in Hk as (k & -> & Hk).
  apply string_length_chain_nil in He as (e & -> & He).
  exists k, e. done.
Qed.

Lemma optional_string_length_chain_nil f min max m v :
  Validator.optional_string_length_chain f min max m v = []
  <-> v = Undefined \/
      exists s, v = Val (JStr s) /\ Validator.isLength min max s = true.
Proof.
  unfold Validator.optional_string_length_chain. destruct v as [|j].
  - split; auto.
  - rewrite string_length_chain_nil. split; [eauto|]. by intros [|].
Qed.

Lemma updateConfigurationValidation_fields id key value environment :
  updateConfigurationValidation id key value environment = [] ->
  (forall k, Pg.param key = Some k -> Validator.isLength 1 255 k = true) /\
  (forall e, Pg.param environment = Some e -> Validator.isLength 1 50 e = true).
Proof.
  unfold updateConfigurationValidation. rewrite !app_nil.
  intros (_ & Hk & _ & He).
  apply optional_string_length_chain_nil in Hk, He. split.
  - intros k. destruct Hk as [->|(s & -> & Hs)]; [done|]. by intros [= <-].
  - intros e. destruct He as [->|(s & -> & Hs)]; [done|]. by intros [= <-].
Qed.

Lemma sequence_advanced_wf (s : store) :
  wf s -> wf (mkStore (tables s) (Pos.succ (configurations_id_seq s))).
Proof.
  intros (H1 & H2 & H3 & H4 & H5). unfold wf. simpl. split_and!; try done.
  eapply Forall_impl; [exact H4|]. simpl. intros c. lia.
Qed.

Lemma insert_configuration_wf (s : store) (p : parameter) (k e : string)
    (value : option string) (now : Z) :
  wf s -> Validator.isLength 1 255 k = true -> Validator.isLength 1 50 e = true ->
  wf (fst (insert_configuration s p (Some k) value (Some e) now)).
Proof.
  intros Hwf Hk He. unfold insert_configuration.
  destruct (int4 p) as [code|[a|]]; [done| |by apply sequence_advanced_wf].
  rewrite (isLength_max _ Hk), (isLength_max_50 _ He). cbn [orb].
  destruct (existsb _ _) eqn:Hex; [by apply sequence_advanced_wf|].
  destruct (List.find _ _) as [app|] eqn:Hfind; [|by apply sequence_advanced_wf].
  apply find_some in Hfind as [Happ Hid]. apply has_id_true in Hid.
  destruct Hwf as ((Hpk & Hun & Hseq & Hlen & Hfk) & Hcpk & Hcun & Hcseq & Hclen).
  unfold wf, Pg.wf.
  cbn [fst tables configurations_id_seq with_configurations applications
         configurations applications_id_seq].
  rewrite !List.map_app. cbn [List.map].
  rewrite Forall_forall in Hcseq.
  split_and!; try done.
  - apply Forall_app. split; [done|]. constructor; [|constructor].
    apply Exists_exists. exists app. split; [by apply list_elem_of_In|done].
  - apply NoDup_app. split_and!; [done| |apply NoDup_singleton].
    intros x Hx ->%list_elem_of_singleton.
    apply list_elem_of_In, in_map_iff in Hx as (c & Hc & Hin).
    apply list_elem_of_In, Hcseq in Hin. simpl in Hc. lia.
  - apply NoDup_app. split_and!; [done| |apply NoDup_singleton].
    intros x Hx ->%list_elem_of_singleton.
    apply list_elem_of_In, in_map_iff in Hx as (c & Hc & Hin).
    assert (existsb (same_columns a k e) (configurations (tables s)) = true);
      [|congruence].
    apply existsb_exists. exists c. split; [done|].
    unfold triple in Hc. cbn [Configuration.application_id Configuration.key
      Configuration.environment] in Hc. injection Hc as Ha Hkey Henv.
    unfold same_columns. rewrite !bool_decide_eq_true_2; [done|done|done|].
    by rewrite Ha.
  - apply Forall_app. split.
    + apply Forall_forall. intros c Hc. apply Hcseq in Hc. lia.
    + constructor; [simpl; lia|constructor].
  - apply Forall_app. split; [done|]. by constructor.
Qed.

(** POST /api/configurations keeps the constraints. *)
Lemma post_configuration_wf (application_id key value environment : jsval)
    (s : store) (now : Z) :
  wf s -> wf (fst (post_configuration application_id key value environment s now)).
Proof.
  intros Hwf. unfold post_configuration, ConfigurationController.create.
  destruct (createConfigurationValidation _ _ _ _) eqn:Hv; [|done].
  apply createConfigurationValidation_fields in Hv as (k & e & -> & -> & Hk & He).
  destruct (select_application_id _ _) as [code|[|a0 l0]]; [done|done|].
  cbn [Pg.param Validator.toString].
  pose proof (insert_configuration_wf s (prepare application_id) k e
                (Pg.param value) now Hwf Hk He) as H.
  by destruct (insert_configuration _ _ _ _ _ _) as [s' [|]].
Qed.

Lemma configuration_write_rows_ids (i : Z) (key value environment : option string)
    (now : Z) (l : list Configuration.t) :
  List.map Configuration.id (PgConfigurations.write_rows i key value environment now l)
  = List.map Configuration.id l.
Proof.
  unfold PgConfigurations.write_rows. rewrite List.map_map. apply List.map_ext.
  intros b. by destruct (PgConfigurations.has_id i b).
Qed.

Lemma configuration_write_rows_wf (s : store) (i : Z)
    (key value environment : option string) (now : Z) :
  wf s ->
  (forall k, key = Some k -> Validator.isLength 1 255 k = true) ->
  (forall e, environment = Some e -> Validator.isLength 1 50 e = true) ->
  existsb (fun c' => triple_taken c' (configurations (tables s)))
    (List.map (fun c => PgConfigurations.updated_row c key value environment now)
       (List.filter (PgConfigurations.has_id i) (configurations (tables s)))) = false ->
  wf (mkStore
        (with_configurations (tables s)
           (PgConfigurations.write_rows i key value environment now
              (configurations (tables s))))
        (configurations_id_seq s)).
Proof.
  intros ((Hpk & Hun & Hseq & Hlen & Hfk) & Hcpk & Hcun & Hcseq & Hclen) Hkey Henv Hfree.
  set (w := fun b => if PgConfigurations.has_id i b
                     then PgConfigurations.updated_row b key value environment now
                     else b).
  assert (forall b, b ∈ configurations (tables s) ->
            PgConfigurations.has_id i b = true ->
            triple_taken (PgConfigurations.updated_row b key value environment now)
              (configurations (tables s)) = false) as Hfree'.
  { intros b Hb Hid. destruct (triple_taken _ _) eqn:Ht; [|done].
    rewrite <- Hfree. symmetry. apply existsb_exists.
    exists (PgConfigurations.updated_row b key value environment now).
    split; [|done].
    apply (in_map (fun c => PgConfigurations.updated_row c key value environment now)).
    apply filter_In. split; [|done]. by apply list_elem_of_In. }
  unfold wf, Pg.wf.
  cbn [tables configurations_id_seq with_configurations applications
         configurations applications_id_seq].
  rewrite configuration_write_rows_ids. split_and!; try done.
  - rewrite Forall_forall in Hfk. apply Forall_forall. intros c Hc.
    apply list_elem_of_In, in_map_iff in Hc as (c0 & <- & Hc0).
    apply list_elem_of_In, Hfk in Hc0.
    by destruct (PgConfigurations.has_id i c0).
  - unfold PgConfigurations.write_rows. rewrite List.map_map. apply NoDup_alt.
    intros j1 j2 x H1 H2.
    apply (list_lookup_fmap_Some_1 (fun b => triple (w b))) in H1 as (b1 & -> & H1).
    apply (list_lookup_fmap_Some_1 (fun b => triple (w b))) in H2 as (b2 & Heq & H2).
    pose proof (list_elem_of_lookup_2 _ _ _ H1) as Hb1.
    pose proof (list_elem_of_lookup_2 _ _ _ H2) as Hb2.
    destruct (decide (Configuration.id b1 = Configuration.id b2)) as [Hsame|Hdiff].
    { apply (proj1 (NoDup_alt _) Hcpk j1 j2 (Configuration.id b1)).
      - apply (list_lookup_fmap_Some_2 Configuration.id _ _ _ H1).
      - rewrite Hsame. apply (list_lookup_fmap_Some_2 Configuration.id _ _ _ H2). }
    exfalso. unfold w in Heq.
    destruct (PgConfigurations.has_id i b1) eqn:Hi1,
             (PgConfigurations.has_id i b2) eqn:Hi2.
    + apply config_has_id_true in Hi1, Hi2. apply Hdiff. congruence.
    + pose proof (Hfree' b1 Hb1 Hi1) as Hf.
      rewrite (triple_taken_true _ b2) in Hf; [done|done| |done].
      simpl. congruence.
    + pose proof (Hfree' b2 Hb2 Hi2) as Hf.
      rewrite (triple_taken_true _ b1) in Hf; [done|done| |done].
      simpl. congruence.
    + assert (j1 = j2) as ->.
      { apply (proj1 (NoDup_alt _) Hcun j1 j2 (triple b1)).
        - apply (list_lookup_fmap_Some_2 triple _ _ _ H1).
        - rewrite Heq. apply (list_lookup_fmap_Some_2 triple _ _ _ H2). }
      apply Hdiff. congruence.
  - rewrite Forall_forall in Hcseq. apply Forall_forall. intros b Hb.
    apply list_elem_of_In, in_map_iff in Hb as (b0 & <- & Hb0).
    apply list_elem_of_In, Hcseq in Hb0.
    by destruct (PgConfigurations.has_id i b0).
  - rewrite Forall_forall in Hclen. apply Forall_forall. intros b Hb.
    apply list_elem_of_In, in_map_iff in Hb as (b0 & <- & Hb0).
    apply list_elem_of_In, Hclen in Hb0 as [Hk0 He0].
    destruct (PgConfigurations.has_id i b0); [|done]. simpl. split.
    + destruct key as [k|]; simpl; [by apply Hkey|done].
    + destruct environment as [e|]; simpl; [by apply Henv|done].
Qed.

(** PUT /api/configurations/:id keeps the constraints. *)
Lemma put_configuration_wf (id : string) (key value environment : jsval)
    (s : store) (now : Z) :
  wf s -> wf (fst (put_configuration id key value environment s now)).
Proof.
  intros Hwf. unfold put_configuration, ConfigurationController.update.
  destruct (updateConfigurationValidation _ _ _ _) eqn:Hv; [|done].
  apply updateConfigurationValidation_fields in Hv as [Hk He].
  destruct (Pg.int4 id) as [i|]; [|done].
  unfold update_configuration.
  destruct (existsb _ _); [done|].
  destruct (existsb _ _) eqn:Hfree; [done|].
  pose proof (configuration_write_rows_wf s i (Pg.param key) (Pg.param value)
                (Pg.param environment) now Hwf Hk He Hfree) as Hwf'.
  by destruct (List.map _ (List.filter _ _)).
Qed.

(** A route of the applications router that keeps the constraints of the
    tables and leaves the configurations alone keeps those of the store. *)
Lemma on_tables_wf (s : store) (d' : Pg.db) :
  wf s -> Pg.wf d' -> configurations d' = configurations (tables s) ->
  wf (App.on_tables s d').
Proof.
  intros (_ & H2 & H3 & H4 & H5) Hd Hc. unfold wf, App.on_tables.
  cbn [tables configurations_id_seq]. rewrite Hc. done.
Qed.

Lemma post_application_configurations (name description : jsval) (d : db) (now : Z) :
  configurations (fst (post_application name description d now)) = configurations d.
Proof.
  unfold post_application, ApplicationController.create.
  destruct (createApplicationValidation name description); [|done].
  unfold insert_application.
  destruct (Pg.param name) as [n|]; [|done].
  destruct (255 <? String.length n)%nat; [done|].
  by destruct (existsb _ _).
Qed.

Lemma put_application_configurations (id : string) (name description : jsval)
    (d : db) (now : Z) :
  configurations (fst (put_application id name description d now)) = configurations d.
Proof.
  destruct (put_application_db id name description d now) as [->|(i & _ & ->)]; done.
Qed.

Lemma handle_wf (r : App.request) (s : store) (now : Z) :
  wf s -> wf (App.handle r s now).
Proof.
  intros Hwf. pose proof Hwf as (Hd & _).
  destruct r; cbn [App.handle].
  - apply on_tables_wf; [done|by apply post_application_wf|].
    apply post_application_configurations.
  - apply on_tables_wf; [done|by apply put_application_wf|].
    apply put_application_configurations.
  - unfold get_application, ApplicationController.getById.
    destruct s. destruct (getApplicationValidation id); [|done].
    destruct (Pg.int4 id); [|done]. by destruct (select_application _ _).
  - unfold get_applications, ApplicationController.getAll.
    destruct s. cbn [tables].
    repeat match goal with
           | |- context [match ?x with _ => _ end] => destruct x
           end; done.
  - by apply post_configuration_wf.
  - by apply put_configuration_wf.
  - unfold get_configuration, ConfigurationController.getById.
    destruct (getConfigurationValidation id); [|done].
    destruct (Pg.int4 id); [|done]. by destruct (select_configuration _ _).
  - unfold get_configurations_by_application, ConfigurationController.getByApplication.
    destruct s. cbn [tables].
    repeat match goal with
           | |- context [match ?x with _ => _ end] => destruct x
           end; done.
Qed.

End StoreInvariant.

(** X12. The constraints of the schema are invariants of the application.
    Whatever requests the eight routes receive, in whatever order and with
    whatever bodies, the store reached from the empty one has distinct
    application ids and names, distinct configuration ids and distinct
    (application, key, environment) triples, both sequences ahead of every
    id, every configuration attached to an application of the store, and
    only names, keys and environments of the validated lengths. *)
Theorem application_keeps_constraints (trace : list (App.request * Z)) :
  PgConfigurations.wf (App.run trace PgConfigurations.empty).
Proof.
  assert (forall s, PgConfigurations.wf s -> PgConfigurations.wf (App.run trace s))
    as Hrun.
  { induction trace as [|[r now] rest IH]; intros s Hs; [done|].
    cbn [App.run]. apply IH. by apply handle_wf. }
  apply Hrun. unfold PgConfigurations.wf, PgConfigurations.empty. simpl.
  split_and!; [apply empty_wf|constructor..].
Qed.

(** ** GET /api/configurations/application/:applicationId on a stored
    application *)

#[global] Instance cnewer_total : Total Pg.cnewer.
Proof. intros a b. unfold Pg.cnewer. lia. Qed.

#[global] Instance cnewer_trans : Transitive Pg.cnewer.
Proof. intros a b c. unfold Pg.cnewer. lia. Qed.

Section ConfigurationPages.
Import Pg Routes.




End ConfigurationPages.



(** ** The mock handlers: DELETE and POST of applications *)

Section MockApplications.
Import MockApi.

Lemma findIndex_find (p : ApplicationResponse -> bool) (l : list ApplicationResponse) :
  findIndex p l = None <-> List.find p l = None.
Proof.
  induction l as [|a l IH]; simpl; [done|].
  destruct (p a); [done|].
  destruct (findIndex p l) as [n|]; simpl.
  - split; [done|]. intros H. apply IH in H. done.
  - split; [|done]. intros _. by apply IH.
Qed.

Lemma findIndex_lt (p : ApplicationResponse -> bool) (l : list ApplicationResponse)
    (n : nat) :
  findIndex p l = Some n -> (n < List.length l)%nat.
Proof.
  revert n. induction l as [|a l IH]; intros n; simpl; [done|].
  destruct (p a); [intros [= <-]; lia|].
  destruct (findIndex p l) as [m|]; simpl; [|done].
  intros [= <-]. specialize (IH m eq_refl). lia.
Qed.

Lemma splice1_length (n : nat) (l : list ApplicationResponse) :
  (n < List.length l)%nat -> S (List.length (splice1 n l)) = List.length l.
Proof.
  intros Hn. unfold splice1. rewrite length_app, length_take, length_drop. lia.
Qed.

(** Removing the first entry of id [i] changes nothing for another id. *)
Lemma splice_other_id (i k : string) (l : list ApplicationResponse) (n : nat) :
  k <> i -> findIndex (same_id i) l = Some n ->
  List.find (same_id k) (splice1 n l) = List.find (same_id k) l.
Proof.
  intros Hk. revert n. induction l as [|a l IH]; intros n; simpl; [done|].
  destruct (same_id i a) eqn:Ha.
  - intros [= <-]. unfold splice1. simpl. rewrite drop_0.
    unfold same_id in *. apply bool_decide_eq_true in Ha.
    rewrite bool_decide_eq_false_2; [done|congruence].
  - destruct (findIndex (same_id i) l) as [m|]; simpl; [|done].
    intros [= <-]. unfold splice1. simpl.
    destruct (same_id k a); [done|]. by apply IH.
Qed.

Lemma find_app_last (p : ApplicationResponse -> bool)
    (l : list ApplicationResponse) (x : ApplicationResponse) :
  List.find p (l ++ [x])
  = match List.find p l with
    | Some a => Some a
    | None => if p x then Some x else None
    end.
Proof.
  induction l as [|a l IH]; simpl; [done|]. by destruct (p a).
Qed.

End MockApplications.

(** X14. DELETE /api/v1/applications/:id of the mock API decides by the
    presence of the id.  For an id that no stored application carries it
    answers 404 and changes nothing.  For an id that is carried it answers
    204 and removes one entry: the list is one shorter, every other id is
    served by GET as before, and the configurations are untouched. *)
Theorem delete_application_removes_one_entry (s : MockApi.store) (i : string) :
  let r := MockApi.delete_application s i in
  (~ MockApi.known s i ->
   r = (s, MockApi.mkResponse 404 (MockApi.BError "Application not found"))) /\
  (MockApi.known s i ->
   snd r = MockApi.mkResponse 204 MockApi.BEmpty /\
   S (List.length (MockApi.mockApplications (fst r)))
   = List.length (MockApi.mockApplications s) /\
   (forall k, k <> i ->
      snd (MockApi.get_application (fst r) k) = snd (MockApi.get_application s k)) /\
   MockApi.mockConfigurations (fst r) = MockApi.mockConfigurations s).
Proof.
  cbv zeta. unfold MockApi.delete_application. split.
  - intros Hno. rewrite known_find in Hno.
    assert (List.find (MockApi.same_id i) (MockApi.mockApplications s) = None) as Hf.
    { destruct (List.find _ _); [|done]. exfalso. by apply Hno. }
    apply findIndex_find in Hf. by rewrite Hf.
  - intros Hk. rewrite known_find in Hk.
    destruct (MockApi.findIndex _ _) as [n|] eqn:Hfi.
    + cbn [fst snd MockApi.mockApplications MockApi.mockConfigurations].
      split_and!; [done| |  |done].
      * apply splice1_length. by apply (findIndex_lt _ _ _ Hfi).
      * intros k Hne. unfold MockApi.get_application.
        cbn [MockApi.mockApplications].
        rewrite (splice_other_id i k _ n Hne Hfi).
        destruct (List.find (MockApi.same_id k) (MockApi.mockApplications s));
          reflexivity.
    + exfalso. apply Hk. by apply findIndex_find.
Qed.

Lemma delete_application_removes_one_entry_witness :
  MockApi.delete_application MockApi.initial "non-existent-id"
  = (MockApi.initial,
     MockApi.mkResponse 404 (MockApi.BError "Application not found")) /\
  snd (MockApi.get_application
         (fst (MockApi.delete_application MockApi.initial
                 "01ARZ3NDEKTSV4RRFFQ69G5FAV"))
         "01ARZ3NDEKTSV4RRFFQ69G5FB0")
  = MockApi.mkResponse 200 (MockApi.BApplication MockApi.app2).
Proof.
  split.
  - apply (delete_application_removes_one_entry MockApi.initial "non-existent-id").
    rewrite known_find. simpl. intros H. by apply H.
  - destruct (delete_application_removes_one_entry MockApi.initial
                "01ARZ3NDEKTSV4RRFFQ69G5FAV") as [_ Hdel].
    destruct Hdel as (_ & _ & Hother & _).
    + rewrite known_find. simpl. discriminate.
    + rewrite (Hother "01ARZ3NDEKTSV4RRFFQ69G5FB0"); [reflexivity|discriminate].
Defined.

(** X15. POST /api/v1/applications of the mock API checks nothing and gives
    every new application the same id.  Each POST answers 201 and appends
    its entry; after two of them GET by that id is answered 200 with what
    it was answered after the first, so the second entry is stored and
    listed but is not the one served by id. *)
Theorem post_application_reuses_one_id (s : MockApi.store)
    (name1 name2 : string) (description1 description2 : option string) :
  let i := "01ARZ3NDEKTSV4RRFFQ69G5FC0" in
  let r1 := MockApi.post_application s name1 description1 in
  let r2 := MockApi.post_application (fst r1) name2 description2 in
  snd r1 = MockApi.mkResponse 201
             (MockApi.BApplication (MockApi.mkApp i name1 description1)) /\
  snd r2 = MockApi.mkResponse 201
             (MockApi.BApplication (MockApi.mkApp i name2 description2)) /\
  snd (MockApi.get_applications (fst r2))
  = MockApi.mkResponse 200
      (MockApi.BApplications
         (MockApi.mockApplications s ++
          [MockApi.mkApp i name1 description1; MockApi.mkApp i name2 description2])) /\
  (exists a, snd (MockApi.get_application (fst r1) i)
             = MockApi.mkResponse 200 (MockApi.BApplication a)) /\
  snd (MockApi.get_application (fst r2) i) = snd (MockApi.get_application (fst r1) i) /\
  MockApi.mockConfigurations (fst r2) = MockApi.mockConfigurations s.
Proof.
  cbv zeta. unfold MockApi.post_application, MockApi.get_applications,
    MockApi.get_application.
  cbn [fst snd MockApi.mockApplications MockApi.mockConfigurations].
  rewrite !find_app_last.
  assert (forall n d, MockApi.same_id "01ARZ3NDEKTSV4RRFFQ69G5FC0"
                        (MockApi.mkApp "01ARZ3NDEKTSV4RRFFQ69G5FC0" n d) = true)
    as Hsame by done.
  rewrite !Hsame. split_and!; [done|done| | | |done].
  - by rewrite <- app_assoc.
  - destruct (List.find _ _) as [a|]; cbn [snd]; eauto.
  - by destruct (List.find _ _).
Qed.

(** ** The client: messages of failures and headers of requests *)

(** X16. The messages of the client's failures.  Whatever method is
    called: when [fetch] throws an error named AbortError, or one whose
    message contains "aborted", the result is [success: false] with
    "Request aborted: " before the message; for any other error it is the
    message itself; for a thrown value that is not an error it is
    "Network error".  A response with a non-ok status whose body parses to
    a number, a string, a boolean or an array gives [success: false] with
    no error at all. *)
Theorem client_failure_messages
    (fetch : string -> ConfigClient.RequestInit ->
             ConfigClient.outcome ConfigClient.Response)
    (baseUrl : string) (c : ConfigClient.call) :
  exists endpoint options,
    let result := ConfigClient.invoke fetch baseUrl c in
    let sent := fetch (baseUrl ++ endpoint) (ConfigClient.merged options) in
    let failure (m : string) :=
      ConfigClient.Returned (ConfigClient.Failure (Val (JStr m))) in
    (forall m, sent = ConfigClient.Thrown (ConfigClient.Error "AbortError" m) ->
       result = failure ("Request aborted: " ++ m)) /\
    (forall n m, sent = ConfigClient.Thrown (ConfigClient.Error n m) ->
       Js.includes "aborted" m = true ->
       result = failure ("Request aborted: " ++ m)) /\
    (forall n m, sent = ConfigClient.Thrown (ConfigClient.Error n m) ->
       n <> "AbortError" -> Js.includes "aborted" m = false ->
       result = failure m) /\
    (sent = ConfigClient.Thrown ConfigClient.NotAnError ->
       result = failure "Network error") /\
    (forall resp j, sent = ConfigClient.Returned resp ->
       ConfigClient.ok resp = false ->
       ConfigClient.json_body resp = ConfigClient.Returned j ->
       j <> JNull -> (forall fields, j <> JObj fields) ->
       result = ConfigClient.Returned (ConfigClient.Failure Undefined)).
Proof.
  destruct (invoke_request fetch baseUrl c) as (endpoint & options & Hinv).
  exists endpoint, options. cbv zeta. rewrite Hinv. split_and!.
  - intros m Hsent.
    by rewrite (request_fetch_thrown fetch baseUrl endpoint options _ Hsent).
  - intros n m Hsent Hinc.
    rewrite (request_fetch_thrown fetch baseUrl endpoint options _ Hsent).
    unfold ConfigClient.on_catch. by rewrite Hinc, orb_true_r.
  - intros n m Hsent Hn Hinc.
    rewrite (request_fetch_thrown fetch baseUrl endpoint options _ Hsent).
    unfold ConfigClient.on_catch. by rewrite Hinc, bool_decide_eq_false_2.
  - intros Hsent.
    by rewrite (request_fetch_thrown fetch baseUrl endpoint options _ Hsent).
  - intros resp j Hsent Hok Hbody Hnull Hobj.
    rewrite (request_not_ok fetch baseUrl endpoint options resp Hsent Hok), Hbody.
    destruct j; try done. by destruct (Hobj fields).
Qed.

Lemma client_failure_messages_witness :
  ConfigClient.deleteApplication
    (fun _ _ => ConfigClient.Thrown
                  (ConfigClient.Error "TypeError" "The operation was aborted."))
    "/api/v1" "01ARZ3NDEKTSV4RRFFQ69G5FAV"
  = ConfigClient.Returned
      (ConfigClient.Failure
         (Val (JStr "Request aborted: The operation was aborted."))).
Proof.
  destruct (client_failure_messages
              (fun _ _ => ConfigClient.Thrown
                   (ConfigClient.Error "TypeError" "The operation was aborted."))
              "/api/v1" (ConfigClient.DeleteApplication "01ARZ3NDEKTSV4RRFFQ69G5FAV"))
    as (endpoint & options & _ & Hinc & _).
  apply (Hinc "TypeError" "The operation was aborted."); reflexivity.
Defined.

(** X17. Every request the client sends carries exactly the header
    [Content-Type: application/json]: two transports that answer alike
    all requests with these headers cannot be told apart by any method of
    the client. *)
Theorem client_requests_carry_content_type
    (fetch fetch' : string -> ConfigClient.RequestInit ->
                    ConfigClient.outcome ConfigClient.Response)
    (baseUrl : string) (c : ConfigClient.call) :
  (forall url init,
     ConfigClient.headers init = Some [("Content-Type", "application/json")] ->
     fetch url init = fetch' url init) ->
  ConfigClient.invoke fetch baseUrl c = ConfigClient.invoke fetch' baseUrl c.
Proof.
  intros Hsame.
  destruct c; cbn [ConfigClient.invoke]; unfold ConfigClient.getHealth,
    ConfigClient.getApplications, ConfigClient.getApplication,
    ConfigClient.createApplication, ConfigClient.deleteApplication,
    ConfigClient.getConfiguration, ConfigClient.updateConfiguration,
    ConfigClient.getConfigByName, ConfigClient.request;
    by rewrite Hsame.
Qed.

Lemma client_requests_carry_content_type_witness :
  let no_content := ConfigClient.mkResponse 204 (ConfigClient.Returned JNull) in
  let strict (url : string) (init : ConfigClient.RequestInit) :=
    if bool_decide (ConfigClient.headers init
                    = Some [("Content-Type", "application/json")])
    then ConfigClient.Returned no_content
    else ConfigClient.Thrown ConfigClient.NotAnError in
  ConfigClient.invoke strict "/api/v1" (ConfigClient.CreateApplication (JStr "x"))
  = ConfigClient.invoke (fun _ _ => ConfigClient.Returned no_content) "/api/v1"
      (ConfigClient.CreateApplication (JStr "x")).
Proof.
  intros no_content strict.
  apply (client_requests_carry_content_type strict
           (fun _ _ => ConfigClient.Returned no_content)).
  intros url init Hh. unfold strict. by rewrite bool_decide_eq_true_2.
Defined.

(** ** The form: acceptance, submission and typing *)

Section FormFacts.
Import CreateAppForm.

Lemma validation_description_error (f : ApplicationCreate) :
  description_error (validation f) = None
  <-> forall d, description f = Some d -> d = "" \/ Js.blank d = false.
Proof.
  unfold validation. cbn [description_error].
  destruct (description f) as [[|c r]|]; cbn [Js.truthy default andb]; unfold id.
  - split; [|done]. intros _ d [= <-]. by left.
  - destruct (Js.blank (String c r)) eqn:Hb; cbn [andb].
    + split; [done|]. intros H. destruct (H _ eq_refl) as [?|?]; congruence.
    + split; [|done]. intros _ d [= <-]. by right.
  - split; [|done]. by intros _ d [=].
Qed.

Lemma no_errors_spec (e : ValidationErrors) :
  no_errors e = true <-> name_error e = None /\ description_error e = None.
Proof.
  unfold no_errors. destruct (name_error e), (description_error e); split;
    try done; by intros [? ?].
Qed.

(** A submission of an accepted form that is not in flight. *)
Lemma submitForm_valid (api : ApplicationCreate -> ConfigClient.ApiResponse)
    (s : state) :
  loadingState s <> loading -> no_errors (validation (formData s)) = true ->
  submitForm api s
  = match api (formData s) with
    | ConfigClient.Success data =>
        (mkState (mkForm "" (Some "")) idle (Val JNull) (mkErrors None None),
         [Render; CreateApplication (formData s); Emit "app-created" data;
          Render; Render])
    | ConfigClient.Failure err =>
        (mkState (formData s) failed err (validation (formData s)),
         [Render; CreateApplication (formData s); Render])
    end.
Proof.
  intros Hl Hv. unfold submitForm, validateForm. rewrite Hv.
  cbn [negb formData validationErrors error].
  destruct (loadingState s); [|done| |]; by destruct (api (formData s)).
Qed.

End FormFacts.

(** X18. What the form accepts.  [validateForm] returns true exactly when
    the name is not empty and has only characters of [A-Za-z0-9_-], and the
    description is absent, empty, or has a character that is not white
    space. *)
Theorem validate_form_accepts (s : CreateAppForm.state) :
  snd (CreateAppForm.validateForm s) = true
  <-> (CreateAppForm.name (CreateAppForm.formData s) <> "" /\
       Forall (fun c => CreateAppForm.name_char c = true)
         (list_ascii_of_string (CreateAppForm.name (CreateAppForm.formData s)))) /\
      (forall d, CreateAppForm.description (CreateAppForm.formData s) = Some d ->
         d = "" \/ Js.blank d = false).
Proof.
  unfold CreateAppForm.validateForm. cbn [snd].
  by rewrite no_errors_spec, validation_name_error, name_regex_spec,
    validation_description_error.
Qed.

(** X19. Submitting the form.  While a submission is in flight,
    [submitForm] does nothing.  Otherwise, for an accepted form, it sends
    one create request with the data of the form.  When that succeeds the
    event "app-created" carries the created application and the form is
    blank and idle again, so that submitting once more sends nothing and
    shows "Application name is required".  When it fails the data stay in
    the form with the error of the response, and submitting once more sends
    the same data again. *)
Theorem submit_form_outcomes
    (api api' : CreateAppForm.ApplicationCreate -> ConfigClient.ApiResponse)
    (s : CreateAppForm.state) :
  let sent := CreateAppForm.CreateApplication (CreateAppForm.formData s) in
  let r := CreateAppForm.submitForm api s in
  let again := CreateAppForm.submitForm api' (fst r) in
  (CreateAppForm.loadingState s = CreateAppForm.loading -> r = (s, [])) /\
  (CreateAppForm.loadingState s <> CreateAppForm.loading ->
   snd (CreateAppForm.validateForm s) = true ->
   (forall data, api (CreateAppForm.formData s) = ConfigClient.Success data ->
      List.filter (fun e => match e with CreateAppForm.Render => false | _ => true end)
        (snd r)
      = [sent; CreateAppForm.Emit "app-created" data] /\
      fst r = CreateAppForm.mkState (CreateAppForm.mkForm "" (Some ""))
                CreateAppForm.idle (Val JNull) (CreateAppForm.mkErrors None None) /\
      snd again = [CreateAppForm.Render] /\
      CreateAppForm.name_error (CreateAppForm.validationErrors (fst again))
      = Some "Application name is required") /\
   (forall err, api (CreateAppForm.formData s) = ConfigClient.Failure err ->
      List.filter (fun e => match e with CreateAppForm.Render => false | _ => true end)
        (snd r)
      = [sent] /\
      CreateAppForm.formData (fst r) = CreateAppForm.formData s /\
      CreateAppForm.loadingState (fst r) = CreateAppForm.failed /\
      CreateAppForm.error (fst r) = err /\
      sent ∈ snd again)).
Proof.
  cbv zeta. split.
  - intros Hl. unfold CreateAppForm.submitForm. by rewrite Hl.
  - intros Hl Hv. unfold CreateAppForm.validateForm in Hv. cbn [snd] in Hv.
    rewrite (submitForm_valid api s Hl Hv). split.
    + intros data ->. cbn [fst snd]. split_and!; reflexivity.
    + intros err ->. cbn [fst snd]. split_and!; try reflexivity.
      rewrite submitForm_valid; [|done|done].
      cbn [CreateAppForm.formData].
      destruct (api' (CreateAppForm.formData s)); cbn [snd]; right; left.
Qed.

Lemma submit_form_outcomes_witness :
  let s := CreateAppForm.mkState (CreateAppForm.mkForm "my-app" (Some ""))
             CreateAppForm.idle (Val JNull) (CreateAppForm.mkErrors None None) in
  let conflict (_ : CreateAppForm.ApplicationCreate) :=
    ConfigClient.Failure (Val (JStr "Application with this name already exists")) in
  CreateAppForm.error (fst (CreateAppForm.submitForm conflict s))
  = Val (JStr "Application with this name already exists") /\
  CreateAppForm.formData (fst (CreateAppForm.submitForm conflict s))
  = CreateAppForm.mkForm "my-app" (Some "").
Proof.
  intros s conflict.
  destruct (submit_form_outcomes conflict conflict s) as [_ Hsub].
  destruct Hsub as [_ Hfail]; [discriminate|reflexivity|].
  destruct (Hfail _ eq_refl) as (_ & Hdata & _ & Herr & _).
  split; [exact Herr|exact Hdata].
Defined.

(** X20. Typing into a field.  [onInputChange] puts the value into that
    field and leaves the other field, the loading state and the error of
    the response alone; of the errors that [validateForm] has left it
    removes the one of that field and keeps the other, and it draws the
    form again exactly when it removed one.  It does not validate: a name
    outside the character rule typed into the form is still refused by the
    next submission, which sends nothing. *)
Theorem input_change_clears_own_error
    (f : CreateAppForm.field_name) (value : string) (s : CreateAppForm.state)
    (checked : CreateAppForm.ApplicationCreate) :
  CreateAppForm.validationErrors s = CreateAppForm.validation checked ->
  let own (e : CreateAppForm.ValidationErrors) :=
    match f with
    | CreateAppForm.Name => CreateAppForm.name_error e
    | CreateAppForm.Description => CreateAppForm.description_error e
    end in
  let other (e : CreateAppForm.ValidationErrors) :=
    match f with
    | CreateAppForm.Name => CreateAppForm.description_error e
    | CreateAppForm.Description => CreateAppForm.name_error e
    end in
  let r := CreateAppForm.onInputChange f value s in
  CreateAppForm.formData (fst r)
  = match f with
    | CreateAppForm.Name =>
        CreateAppForm.mkForm value
          (CreateAppForm.description (CreateAppForm.formData s))
    | CreateAppForm.Description =>
        CreateAppForm.mkForm (CreateAppForm.name (CreateAppForm.formData s))
          (Some value)
    end /\
  CreateAppForm.loadingState (fst r) = CreateAppForm.loadingState s /\
  CreateAppForm.error (fst r) = CreateAppForm.error s /\
  own (CreateAppForm.validationErrors (fst r)) = None /\
  other (CreateAppForm.validationErrors (fst r))
  = other (CreateAppForm.validationErrors s) /\
  snd r = match own (CreateAppForm.validationErrors s) with
          | Some _ => [CreateAppForm.Render]
          | None => []
          end /\
  (f = CreateAppForm.Name -> CreateAppForm.name_regex value = false ->
   forall api data,
     CreateAppForm.CreateApplication data
     ∉ snd (CreateAppForm.submitForm api (fst r))).
Proof.
  intros Hchecked own other r.
  assert (forall o : option string,
            (o = CreateAppForm.name_error (CreateAppForm.validation checked) \/
             o = CreateAppForm.description_error (CreateAppForm.validation checked)) ->
            Js.truthy o = bool_decide (o <> None)) as Htruthy.
  { intros o [->| ->]; unfold CreateAppForm.validation; simpl.
    - destruct (Js.blank _); [done|]. by destruct (negb _).
    - by destruct (_ && _). }
  unfold r, own, other, CreateAppForm.onInputChange. rewrite Hchecked.
  destruct f.
  - rewrite (Htruthy _ (or_introl eq_refl)).
    destruct (CreateAppForm.name_error (CreateAppForm.validation checked)) eqn:He;
      cbn [fst snd CreateAppForm.formData CreateAppForm.loadingState
             CreateAppForm.error CreateAppForm.validationErrors
             CreateAppForm.name_error CreateAppForm.description_error];
      (split_and!; [done..|]); intros _ Hbad api data;
      by apply submitForm_invalid_name.
  - rewrite (Htruthy _ (or_intror eq_refl)).
    destruct (CreateAppForm.description_error (CreateAppForm.validation checked))
      eqn:He;
      cbn [fst snd CreateAppForm.formData CreateAppForm.loadingState
             CreateAppForm.error CreateAppForm.validationErrors
             CreateAppForm.name_error CreateAppForm.description_error];
      by split_and!.
Qed.

Lemma input_change_clears_own_error_witness :
  let bad := CreateAppForm.mkForm "" (Some "   ") in
  let s := CreateAppForm.mkState bad CreateAppForm.idle (Val JNull)
             (CreateAppForm.validation bad) in
  let r := CreateAppForm.onInputChange CreateAppForm.Name "my app" s in
  CreateAppForm.name_error (CreateAppForm.validationErrors (fst r)) = None /\
  CreateAppForm.description_error (CreateAppForm.validationErrors (fst r))
  = Some "Description cannot be empty if provided" /\
  snd r = [CreateAppForm.Render].
Proof.
  intros bad s r.
  destruct (input_change_clears_own_error CreateAppForm.Name "my app" s bad eq_refl)
    as (_ & _ & _ & Hown & Hother & Hdraw & _).
  split_and!; [exact Hown|exact Hother|exact Hdraw].
Defined.

(** ** Templates of the components *)

Section Templates.
Import BaseComponent.

Lemma text_app_nil_r (s : string) : s +:+ "" = s.
Proof.
  induction s as [|c s IH]; [done|].
  change (String c (s +:+ "") = String c s). by rewrite IH.
Qed.

Lemma text_app_nil_l (s : string) : "" +:+ s = s.
Proof. reflexivity. Qed.

Lemma text_app_assoc (s1 s2 s3 : string) :
  (s1 +:+ s2) +:+ s3 = s1 +:+ (s2 +:+ s3).
Proof.
  induction s1 as [|c s1 IH]; [done|].
  change (String c ((s1 +:+ s2) +:+ s3) = String c (s1 +:+ (s2 +:+ s3))).
  by rewrite IH.
Qed.

Lemma reduce_from_result (i : nat) (strings : list string) (values : list jsval)
    (result : string) :
  reduce_from i strings values result
  = result +:+ reduce_from i strings values "".
Proof.
  revert i result. induction strings as [|str rest IH]; intros i result; simpl.
  - by rewrite text_app_nil_r.
  - rewrite (IH _ (result +:+ str +:+ value_text values i)).
    rewrite (IH _ (str +:+ value_text values i)).
    by rewrite !text_app_assoc.
Qed.

Lemma reduce_from_shift (i : nat) (strings : list string) (v : jsval)
    (values : list jsval) (result : string) :
  reduce_from (S i) strings (v :: values) result
  = reduce_from i strings values result.
Proof.
  revert i result. induction strings as [|str rest IH]; intros i result; simpl;
    [done|].
  by rewrite IH.
Qed.

Lemma reduce_from_no_values (i j : nat) (strings : list string) (result : string) :
  reduce_from i strings [] result = reduce_from j strings [] result.
Proof.
  revert i j result. induction strings as [|x l IH]; intros i j result; simpl;
    [done|].
  unfold value_text. rewrite !lookup_nil. apply IH.
Qed.

End Templates.

(** X21. The template tag [html] (and [css], which calls it) interleaves
    the literal parts of a template with its values: each part is followed
    by the text of the value at its position, where [null], [undefined] and
    a missing value give no text; values beyond the last part are
    dropped. *)
Theorem html_interleaves (str : string) (strings : list string) (v : jsval)
    (values : list jsval) :
  BaseComponent.html [] values = "" /\
  BaseComponent.html (str :: strings) (v :: values)
  = str +:+ Validator.toStringVal v +:+ BaseComponent.html strings values /\
  BaseComponent.html (str :: strings) []
  = str +:+ BaseComponent.html strings [] /\
  BaseComponent.html (str :: strings) (Val JNull :: values)
  = BaseComponent.html (str :: strings) (Undefined :: values) /\
  BaseComponent.css (str :: strings) (v :: values)
  = BaseComponent.html (str :: strings) (v :: values).
Proof.
  unfold BaseComponent.css, BaseComponent.html. split_and!.
  - done.
  - cbn [BaseComponent.reduce_from]. rewrite reduce_from_shift, reduce_from_result.
    unfold BaseComponent.value_text. cbn [lookup list_lookup default]. unfold id.
    by rewrite text_app_nil_l, !text_app_assoc.
  - cbn [BaseComponent.reduce_from]. rewrite reduce_from_result.
    unfold BaseComponent.value_text. cbn [lookup list_lookup default].
    cbn [Validator.toStringVal]. rewrite text_app_nil_l, text_app_nil_r.
    f_equal. apply reduce_from_no_values.
  - cbn [BaseComponent.reduce_from]. by rewrite !reduce_from_shift.
  - done.
Qed.
